(** * The port-memoising SSH workflow of index.js

    A shallow embedding of the part of [index.js] that opens an SSH
    session to a chosen server: [loadPortConfigs], [savePortConfig] and
    [sshIntoServer] with its two inner functions [trySSHConnection] and
    [promptForPort].

    The program talks to three things outside itself: the file
    [~/.ssh_ports.json], the [ssh] child processes it spawns, and the
    operator at the terminal.  The embedding makes them explicit: an
    environment [env] holds the state of the file, the behaviour of the
    child processes still to be spawned and the lines the operator is
    still to type; every function is a state-passing computation that
    returns an [outcome], the new environment and the list of [event]s it
    produced, in order. *)

From stdpp Require Import gmap strings list pretty.
From Stdlib Require Import ZArith Lia.

Set Warnings "-register-all".

(** ** JavaScript values *)

Module Js.

(** A string is the list of its UTF-16 code units. *)
Definition jsstring : Type := list N.

(** The code units of an ASCII literal. *)
Definition units (s : string) : jsstring :=
  Ascii.N_of_ascii <$> String.list_ascii_of_string s.

(** A Number that is an integer, or NaN.  [parseInt] returns nothing
    else; the comparisons of the program are against 0 and 65536, which
    the rounding of a very long numeral to a double does not cross. *)
Inductive number :=
| NaN
| Int (z : Z).

(** The values a parsed JSON text can be, and the Numbers the program
    computes itself.  An object is a finite map from its own string
    keys. *)
Inductive value :=
| VNull
| VBool (b : bool)
| VNum (x : number)
| VStr (s : jsstring)
| VArr (items : list value)
| VObj (fields : gmap string value).

Inductive error :=
| TypeError
| SyntaxError
| SystemError.

(** ToBoolean. *)
Definition truthy (v : value) : bool :=
  match v with
  | VNull => false
  | VBool b => b
  | VNum NaN => false
  | VNum (Int z) => negb (z =? 0)%Z
  | VStr s => match s with [] => false | _ => true end
  | VArr _ => true
  | VObj _ => true
  end.

(** [a || b] where [a] is the result of a property read, [None] being
    [undefined]. *)
Definition or_else (a : option value) (b : value) : value :=
  match a with
  | Some v => if truthy v then v else b
  | None => b
  end.

(** [x > y] and [x < y] on Numbers: false whenever NaN is involved. *)
Definition gt (x : number) (y : Z) : bool :=
  match x with NaN => false | Int z => (y <? z)%Z end.

Definition lt (x : number) (y : Z) : bool :=
  match x with NaN => false | Int z => (z <? y)%Z end.

(** [code === 255], where [code] is an exit status or [null]. *)
Definition strict_eq (code : option Z) (y : Z) : bool :=
  match code with Some z => (z =? y)%Z | None => false end.

(** *** parseInt with no radix argument (ECMA-262, 19.2.5) *)

(** WhiteSpace and LineTerminator code units. *)
Definition is_space (c : N) : bool :=
  ((9 <=? c) && (c <=? 13) || (c =? 32) || (c =? 160) || (c =? 5760)
   || (8192 <=? c) && (c <=? 8202) || (c =? 8232) || (c =? 8233)
   || (c =? 8239) || (c =? 8287) || (c =? 12288) || (c =? 65279))%N.

Fixpoint trim_start (s : jsstring) : jsstring :=
  match s with
  | c :: rest => if is_space c then trim_start rest else s
  | [] => []
  end.

(** The value of a code unit as a digit: 0-9, then a-z and A-Z for
    10-35. *)
Definition digit (c : N) : option Z :=
  (if (48 <=? c) && (c <=? 57) then Some (Z.of_N c - 48)%Z
   else if (97 <=? c) && (c <=? 122) then Some (Z.of_N c - 87)%Z
   else if (65 <=? c) && (c <=? 90) then Some (Z.of_N c - 55)%Z
   else None)%N.

Definition digit_in (radix : Z) (c : N) : option Z :=
  match digit c with
  | Some d => if (d <? radix)%Z then Some d else None
  | None => None
  end.

(** The longest prefix of radix digits, read as a numeral; [acc] is
    [NaN] as long as no digit was seen. *)
Fixpoint numeral (radix : Z) (acc : number) (s : jsstring) : number :=
  match s with
  | c :: rest =>
      match digit_in radix c with
      | Some d =>
          let so_far := match acc with NaN => 0%Z | Int z => z end in
          numeral radix (Int (so_far * radix + d)) rest
      | None => acc
      end
  | [] => acc
  end.

Definition negate (x : number) : number :=
  match x with NaN => NaN | Int z => Int (- z) end.

(** An optional sign, then an optional [0x] or [0X] that makes the
    radix 16. *)
Definition strip_sign (s : jsstring) : bool * jsstring :=
  match s with
  | c :: rest =>
      if (c =? 45)%N then (true, rest)
      else if (c =? 43)%N then (false, rest)
      else (false, s)
  | [] => (false, s)
  end.

Definition strip_prefix (s : jsstring) : Z * jsstring :=
  match s with
  | c :: x :: rest =>
      if ((c =? 48) && ((x =? 120) || (x =? 88)))%N then (16%Z, rest)
      else (10%Z, s)
  | _ => (10%Z, s)
  end.

Definition parseInt (input : jsstring) : number :=
  let '(negative, s) := strip_sign (trim_start input) in
  let '(radix, s) := strip_prefix s in
  let n := numeral radix NaN s in
  if negative then negate n else n.

End Js.
Import Js.

(** ** The world outside the program *)

(** What [~/.ssh_ports.json] holds: a text, known by the value
    [JSON.parse] gives for it, or by the fact that it is not JSON. *)
Inductive text :=
| NotJson
| Json (v : value).

(** The file: absent or holding a text, and whether reading and writing it
    succeed (an existing path that cannot be read is, for instance, a
    directory or a file without read permission). *)
Record disk := Disk {
  node : option text;
  can_read : bool;
  can_write : bool
}.

(** What a spawned child process emits on the [ChildProcess] object. *)
Inductive child_event :=
| EvError
| EvClose (code : option Z).

(** The environment of a run: the store file, the children the next
    [spawn] calls will get, first one first, and the lines the operator
    will type at the prompt. *)
Record env := Env {
  store : disk;
  children : list (list child_event);
  keyboard : list jsstring
}.

(** The lines the program prints. *)
Inductive message :=
| ErrorLoadingPortConfigurations
| ErrorSavingPortConfiguration
| AttemptingSSH (sshUser ipAddress : string) (port : value)
| DisconnectHint
| FailedToStartSSH
| SessionEnded
| ConnectionFailed
| PortSaved (port : value) (ipAddress : string).

(** What a run does that can be observed, in order: [console.log] and
    [console.error], a child spawned, the promise of an attempt settled
    by [resolve(b)], the prompt shown, an answer refused by the
    validator, the store file written. *)
Inductive event :=
| Log (m : message)
| LogError (m : message)
| Spawn (port : value) (sshUser ipAddress : string)
| Resolve (b : bool)
| Ask
| Reject (answer : jsstring)
| WriteFile (t : text).

(** How a computation ends: with a value, with an exception, or not at
    all because it awaits a promise that is never settled. *)
Inductive outcome (A : Type) :=
| Ret (a : A)
| Throw (e : error)
| Pending.
Arguments Ret {A} a.
Arguments Throw {A} e.
Arguments Pending {A}.

(** ** The monad of the program's computations *)

Definition M (A : Type) : Type := env → outcome A * env * list event.

#[global] Instance M_ret : MRet M := λ A a e, (Ret a, e, []).

#[global] Instance M_bind : MBind M := λ A B f m e,
  match m e with
  | (Ret a, e1, t1) => let '(r, e2, t2) := f a e1 in (r, e2, t1 ++ t2)
  | (Throw x, e1, t1) => (Throw x, e1, t1)
  | (Pending, e1, t1) => (Pending, e1, t1)
  end.

Definition throw {A} (x : error) : M A := λ e, (Throw x, e, []).

(** Awaiting a promise that nothing will ever settle. *)
Definition never {A} : M A := λ e, (Pending, e, []).

Definition emit (ev : event) : M () := λ e, (Ret (), e, [ev]).

(** [try { body } catch (error) { handler }]. *)
Definition try_catch {A} (body : M A) (handler : error → M A) : M A := λ e,
  match body e with
  | (Throw x, e1, t1) => let '(r, e2, t2) := handler x e1 in (r, e2, t1 ++ t2)
  | other => other
  end.

Definition console_log (m : message) : M () := emit (Log m).
Definition console_error (m : message) : M () := emit (LogError m).

Definition result {A} (x : outcome A * env * list event) : outcome A := x.1.1.
Definition final {A} (x : outcome A * env * list event) : env := x.1.2.
Definition trace {A} (x : outcome A * env * list event) : list event := x.2.

(** ** Node and inquirer primitives *)

(** [fs.existsSync(configPath)]. *)
Definition existsSync : M bool := λ e,
  (Ret (match node (store e) with Some _ => true | None => false end), e, []).

(** [fs.readFileSync(configPath, 'utf8')]. *)
Definition readFileSync : M text := λ e,
  match node (store e) with
  | Some t => if can_read (store e) then (Ret t, e, []) else (Throw SystemError, e, [])
  | None => (Throw SystemError, e, [])
  end.

(** [fs.writeFileSync(configPath, t)]: replaces the whole file. *)
Definition writeFileSync (t : text) : M () := λ e,
  if can_write (store e)
  then (Ret (),
        Env (Disk (Some t) (can_read (store e)) (can_write (store e)))
            (children e) (keyboard e),
        [WriteFile t])
  else (Throw SystemError, e, []).

Definition JSON_parse (t : text) : M value :=
  match t with
  | Json v => mret v
  | NotJson => throw SyntaxError
  end.

(** [JSON.stringify(v, null, 2)]: the text that parses back to [v]. *)
Definition JSON_stringify (v : value) : text := Json v.

(** [o[key]] for a key that is a host address: no array index, no
    inherited property name.  [None] is [undefined]. *)
Definition get_prop (o : value) (key : string) : M (option value) :=
  match o with
  | VNull => throw TypeError
  | VObj fields => mret (fields !! key)
  | _ => mret None
  end.

(** [o[key] = v], same keys.  The module is not in strict mode: on a
    primitive the assignment is dropped; on an array it adds a named
    property, which [JSON.stringify] does not write. *)
Definition set_prop (o : value) (key : string) (v : value) : M value :=
  match o with
  | VNull => throw TypeError
  | VObj fields => mret (VObj (<[key := v]> fields))
  | _ => mret o
  end.

(** [spawn('ssh', ['-p', port, `${sshUser}@${ipAddress}`], ...)]: the
    child is the list of events it will emit. *)
Definition spawn (port : value) (sshUser ipAddress : string) : M (list child_event) := λ e,
  match children e with
  | c :: cs => (Ret c, Env (store e) cs (keyboard e), [Spawn port sshUser ipAddress])
  | [] => (Ret [], e, [Spawn port sshUser ipAddress])
  end.

(** [resolve(b)] on a promise that is still open ([None]) settles it;
    on a settled one it does nothing. *)
Definition resolve (b : bool) (promise : option bool) : M (option bool) :=
  match promise with
  | None => emit (Resolve b);; mret (Some b)
  | Some _ => mret promise
  end.

Definition await (promise : option bool) : M bool :=
  match promise with
  | Some b => mret b
  | None => never
  end.

(** inquirer's input prompt: an empty line stands for the default; the
    answer is returned once [validate] accepts it, and the question stays
    up with the message otherwise. *)
Definition answer_of (default line : jsstring) : jsstring :=
  match line with [] => default | _ => line end.

Fixpoint read_lines (default : jsstring) (validate : jsstring → bool)
    (lines : list jsstring) : outcome jsstring * list jsstring * list event :=
  match lines with
  | [] => (Pending, [], [])
  | line :: rest =>
      let answer := answer_of default line in
      if validate answer then (Ret answer, rest, [])
      else let '(r, unread, t) := read_lines default validate rest in
           (r, unread, Reject answer :: t)
  end.

Definition inquirer_prompt (default : jsstring) (validate : jsstring → bool)
  : M jsstring := λ e,
  let '(r, unread, t) := read_lines default validate (keyboard e) in
  (r, Env (store e) (children e) unread, Ask :: t).

(** ** index.js *)

(** lines 119-129 *)
Definition loadPortConfigs : M value :=
  returned ←
    try_catch
      (found ← existsSync;
       if found : bool
       then t ← readFileSync; v ← JSON_parse t; mret (Some v)
       else mret None)
      (λ error, console_error ErrorLoadingPortConfigurations;; mret None);
  match returned with
  | Some v => mret v
  | None => mret (VObj ∅)
  end.

(** lines 134-143 *)
Definition savePortConfig (ip : string) (port : value) : M () :=
  try_catch
    (configs ← loadPortConfigs;
     configs ← set_prop configs ip port;
     writeFileSync (JSON_stringify configs))
    (λ error, console_error ErrorSavingPortConfiguration).

Definition defaultPort : Z := 22.

(** [String(defaultPort)]. *)
Definition defaultPort_string : jsstring := units "22".

(** lines 160-163: the ['error'] listener. *)
Definition on_error (promise : option bool) : M (option bool) :=
  console_error FailedToStartSSH;;
  resolve false promise.

(** lines 165-175: the ['close'] listener. *)
Definition on_close (code : option Z) (promise : option bool) : M (option bool) :=
  if strict_eq code 255
  then resolve false promise
  else console_log SessionEnded;; resolve true promise.

(** The listeners run on the events of the child, in order; the promise
    keeps the value of the first [resolve]. *)
Fixpoint deliver (events : list child_event) (promise : option bool)
  : M (option bool) :=
  match events with
  | [] => mret promise
  | EvError :: rest => p ← on_error promise; deliver rest p
  | EvClose code :: rest => p ← on_close code promise; deliver rest p
  end.

(** lines 153-177 *)
Definition trySSHConnection (ipAddress sshUser : string) (port : value) : M bool :=
  console_log (AttemptingSSH sshUser ipAddress port);;
  console_log DisconnectHint;;
  sshProcess ← spawn port sshUser ipAddress;
  promise ← deliver sshProcess None;
  await promise.

(** lines 186-189 *)
Definition validate (input : jsstring) : bool :=
  let port := parseInt input in
  gt port 0 && lt port 65536.

(** lines 179-193 *)
Definition promptForPort : M value :=
  newPort ← inquirer_prompt defaultPort_string validate;
  mret (VNum (parseInt newPort)).

(** lines 195-209: the asynchronous block, entered with the [port] of
    line 151. *)
Definition negotiation (ipAddress sshUser : string) (port : value) : M () :=
  success ← trySSHConnection ipAddress sshUser port;
  if negb success
  then
    console_log ConnectionFailed;;
    port ← promptForPort;
    success ← trySSHConnection ipAddress sshUser port;
    if success : bool
    then
      savePortConfig ipAddress port;;
      console_log (PortSaved port ipAddress)
    else mret ()
  else mret ().

(** lines 148-210, called with both arguments as [main] does.  The
    outcome is that of the whole flow the call starts: [Throw] is an
    exception out of the statements before the asynchronous block,
    [Pending] a flow that waits for ever. *)
Definition sshIntoServer (ipAddress sshUser : string) : M () :=
  portConfigs ← loadPortConfigs;
  remembered ← get_prop portConfigs ipAddress;
  let port := or_else remembered (VNum (Int defaultPort)) in
  negotiation ipAddress sshUser port.

(** ** Reading a trace *)

(** The ports of the connection attempts, in order. *)
Definition attempts (t : list event) : list value :=
  omap (λ ev, match ev with Spawn port _ _ => Some port | _ => None end) t.

(** What the attempts resolved to, in order. *)
Definition outcomes (t : list event) : list bool :=
  omap (λ ev, match ev with Resolve b => Some b | _ => None end) t.

(** How many times the operator was asked for a port. *)
Definition prompts (t : list event) : nat :=
  length (omap (λ ev, match ev with Ask => Some () | _ => None end) t).

(** The texts written to the store file, in order. *)
Definition writes (t : list event) : list text :=
  omap (λ ev, match ev with WriteFile x => Some x | _ => None end) t.

(** The port the file remembers for a host, as [sshIntoServer] reads it
    on the next run. *)
Definition remembered_port (d : disk) (ip : string) : option value :=
  match node d with
  | Some (Json (VObj fields)) => if can_read d then fields !! ip else None
  | _ => None
  end.

(** An environment from a file, the children to come and the lines the
    operator will type, given as ASCII literals. *)
Definition world (d : disk) (cs : list (list child_event)) (kb : list string) : env :=
  Env d cs (units <$> kb).

(** A child that runs and ends with an exit status. *)
Definition closes (code : Z) : list child_event := [EvClose (Some code)].

(** ** Summaries of the effectful parts *)

(** What [loadPortConfigs] returns for a state of the file, and what it
    prints. *)
Definition loaded (d : disk) : value :=
  match node d with
  | Some (Json v) => if can_read d then v else VObj ∅
  | _ => VObj ∅
  end.

Definition load_log (d : disk) : list event :=
  match node d with
  | None => []
  | Some (Json _) => if can_read d then [] else [LogError ErrorLoadingPortConfigurations]
  | Some NotJson => [LogError ErrorLoadingPortConfigurations]
  end.

(** The configuration with the port of a host set, unless the assignment
    throws. *)
Definition assigned (cfg : value) (ip : string) (port : value) : option value :=
  match cfg with
  | VNull => None
  | VObj fields => Some (VObj (<[ip := port]> fields))
  | _ => Some cfg
  end.

(** What one event of the child makes of the attempt, when it is the
    first to resolve the promise. *)
Definition verdict (ev : child_event) : bool :=
  match ev with
  | EvError => false
  | EvClose code => negb (strict_eq code 255)
  end.

Definition said (ev : child_event) : list event :=
  match ev with
  | EvError => [LogError FailedToStartSSH]
  | EvClose code => if strict_eq code 255 then [] else [Log SessionEnded]
  end.

Definition resolved (b : bool) (promise : option bool) : list event :=
  match promise with None => [Resolve b] | Some _ => [] end.

Definition settled (b : bool) (promise : option bool) : option bool :=
  match promise with None => Some b | Some _ => promise end.

Fixpoint settle (events : list child_event) (promise : option bool) : option bool :=
  match events with
  | [] => promise
  | ev :: rest => settle rest (settled (verdict ev) promise)
  end.

Fixpoint heard (events : list child_event) (promise : option bool) : list event :=
  match events with
  | [] => []
  | ev :: rest =>
      said ev ++ resolved (verdict ev) promise
        ++ heard rest (settled (verdict ev) promise)
  end.

(** What one attempt prints and does, and what awaiting it gives. *)
Definition attempt_log (ip user : string) (port : value) (c : list child_event)
  : list event :=
  [Log (AttemptingSSH user ip port); Log DisconnectHint; Spawn port user ip]
    ++ heard c None.
Arguments attempt_log : simpl never.

Definition awaited (promise : option bool) : outcome bool :=
  match promise with Some b => Ret b | None => Pending end.

(** The port of the first attempt: [portConfigs[ipAddress] || defaultPort]. *)
Definition first_port (cfg : value) (ip : string) : value :=
  or_else (match cfg with VObj fields => fields !! ip | _ => None end)
          (VNum (Int defaultPort)).

(** A child whose attempt resolves to [false]. *)
Definition fails (c : list child_event) : Prop := settle c None = Some false.

(** A child that cannot be launched: ['error'] is its first event. *)
Definition launch_error (c : list child_event) : Prop := head c = Some EvError.

(** The operator's line is one the prompt takes. *)
Definition accepted (line : jsstring) : bool :=
  validate (answer_of defaultPort_string line).

(** The number read so far in a numeral; [NaN] when no digit was read. *)
Definition so_far (acc : number) : Z :=
  match acc with NaN => 0%Z | Int z => z end.

(** A decimal numeral and its value. *)
Definition is_decimal (c : N) : bool := ((48 <=? c) && (c <=? 57))%N.

Definition decimal_value (ds : jsstring) : Z :=
  foldl (λ acc c, acc * 10 + (Z.of_N c - 48))%Z 0%Z ds.


(** A port as the prompt validates it. *)
Definition valid_port (v : value) : Prop :=
  ∃ n, v = VNum (Int n) ∧ (0 < n < 65536)%Z.


(** ** Scenarios *)

Definition no_store : disk := Disk None true true.

(** The first attempt is refused, the second cannot be launched; a third
    child would connect. *)
Definition both_attempts_fail : env :=
  world no_store
    [closes 255; [EvError; EvClose (Some (-2)%Z)]; closes 0]
    ["0"; "abc"; "2222"; "22"].

(** The client cannot be launched; the operator then gives port 2222 and
    the session on it ends with status 0. *)
Definition launch_fails_first : env :=
  world no_store [[EvError; EvClose (Some (-2)%Z)]; closes 0] ["2222"].

(** The first attempt, on the default port, connects. *)
Definition connects_at_once : env := world no_store [closes 0] [].


(** The store file holds the JSON text [null]. *)
Definition null_store : env :=
  world (Disk (Some (Json VNull)) true true) [closes 0] [].

(** The first attempt is refused; the operator gives port 2200 and the
    session on it ends with status 0 (scenario 7 of the specification). *)
Definition second_port_works : env :=
  world no_store [closes 255; closes 0] ["2200"].

(** The store remembers port 2222 for another host. *)
Definition other_host_stored : env :=
  world (Disk (Some (Json (VObj {["10.0.0.2" := VNum (Int 2222)]}))) true true)
    [] [].

(** * The rest of index.js: inventory, picker, agent set-up and [main] *)

(** ** What the platform does with strings *)

(** Three functions of the platform that the program relies on and that
    are taken as given: the text of a value ([undefined] is [None]) as a
    template literal, [String()] and chalk make it; [toLowerCase]; and the
    name under which the text of an address is a key of the store and an
    argument of [ssh]. *)
Class Platform := {
  ToString : option value → jsstring;
  toLowerCase : jsstring → jsstring;
  host_key : jsstring → string
}.

(** [haystack.includes(needle)]. *)
Fixpoint starts_with (needle hay : jsstring) : bool :=
  match needle, hay with
  | [], _ => true
  | c :: needle', d :: hay' => (c =? d)%N && starts_with needle' hay'
  | _ :: _, [] => false
  end.

Fixpoint includes (hay needle : jsstring) : bool :=
  starts_with needle hay
  || match hay with
     | [] => false
     | _ :: rest => includes rest needle
     end.

(** [parts.join(sep)] on texts. *)
Fixpoint join_with (sep : jsstring) (parts : list jsstring) : jsstring :=
  match parts with
  | [] => []
  | [p] => p
  | p :: rest => p ++ sep ++ join_with sep rest
  end.

(** [items.join(sep)]: [null] gives the empty text. *)
Definition join `{Platform} (sep : jsstring) (items : list value) : jsstring :=
  join_with sep
    ((λ x, match x with VNull => [] | _ => ToString (Some x) end) <$> items).

(** ToBoolean of a property that may be [undefined]. *)
Definition truthy_opt (o : option value) : bool :=
  match o with Some v => truthy v | None => false end.

(** [o?.x], where [read] is the read on a value that is neither [null]
    nor [undefined]. *)
Definition optional (o : option value) (read : value → option value)
  : option value :=
  match o with
  | None => None
  | Some VNull => None
  | Some v => read v
  end.

(** [v.key] on such a value, for a key that is no index and no inherited
    name. *)
Definition member (key : string) (v : value) : option value :=
  match v with
  | VObj fields => fields !! key
  | _ => None
  end.

(** [v[0]] on such a value. *)
Definition first_item (v : value) : option value :=
  match v with
  | VArr items => head items
  | VObj fields => fields !! "0"
  | VStr s => (λ c, VStr [c]) <$> head s
  | _ => None
  end.

(** ** The machine the launcher runs on *)

Inductive provider :=
| Vultr
| BinaryLane.

(** What a request to a provider comes to: it fails (no connection, a
    status that is not 2xx), it is answered with a body that axios has
    parsed, or it is never answered. *)
Inductive reply :=
| Refused
| Answered (data : value)
| Silent.

(** The commands [setupSSHAgent] runs: [ssh-add -l], [eval "$(ssh-agent
    -s)"] and [ssh-add]. *)
Inductive command :=
| SshAddList
| StartAgent
| SshAdd.

(** The record the two fetches build for a server.  BinaryLane records
    have no [tags] property. *)
Record server := Server {
  server_provider : provider;
  server_id : option value;
  server_name : value;
  server_ip : option value;
  server_tags : option value
}.

Inductive style :=
| Plain
| Green
| Gray
| Yellow
| Cyan
| Magenta
| Blue
| Red.

(** An entry of the picker: the line shown, as the pieces chalk colours,
    the value returned when it is picked ([None] is [null]) and the text
    searched. *)
Record choice := Choice {
  choice_name : list (style * jsstring);
  choice_value : option server;
  searchValue : jsstring
}.

(** The machine: the environment of the SSH session, whether each
    command run with [execSync] will end with status 0, in the order they
    are run, what the two providers answer, and what the operator does at
    the picker: the text typed last and the position of the entry picked
    in the list shown for it ([None]: the operator never picks). *)
Record machine := Machine {
  terminal : env;
  commands : list bool;
  vultr_api : reply;
  binarylane_api : reply;
  picker : option (jsstring * nat)
}.

Inductive notice :=
| StartingSshAgent
| AddingSshKey
| ErrorSettingUpSshAgent
| ErrorFetching (p : provider)
| NoServersFound
| OperationCancelled.

(** What the launcher does, in order: what the session does, a command
    run, a request sent, a line printed with [console.log] or
    [console.error], the picker shown with its entries. *)
Inductive activity :=
| Session (ev : event)
| Exec (c : command)
| Request (p : provider)
| Say (n : notice)
| SayError (n : notice)
| Offer (choices : list choice).

Definition L (A : Type) : Type := machine → outcome A * machine * list activity.

#[global] Instance L_ret : MRet L := λ A a w, (Ret a, w, []).

#[global] Instance L_bind : MBind L := λ A B f m w,
  match m w with
  | (Ret a, w1, t1) => let '(r, w2, t2) := f a w1 in (r, w2, t1 ++ t2)
  | (Throw x, w1, t1) => (Throw x, w1, t1)
  | (Pending, w1, t1) => (Pending, w1, t1)
  end.

Definition raise {A} (x : error) : L A := λ w, (Throw x, w, []).

Definition act (a : activity) : L () := λ w, (Ret (), w, [a]).

Definition say (n : notice) : L () := act (Say n).
Definition say_error (n : notice) : L () := act (SayError n).

(** [try { body } catch (error) { handler }] in the launcher. *)
Definition guarded {A} (body : L A) (handler : error → L A) : L A := λ w,
  match body w with
  | (Throw x, w1, t1) => let '(r, w2, t2) := handler x w1 in (r, w2, t1 ++ t2)
  | other => other
  end.

(** A computation of the session, run on the terminal of the machine. *)
Definition on_terminal {A} (m : M A) : L A := λ w,
  let '(r, e, t) := m (terminal w) in
  (r,
   Machine e (commands w) (vultr_api w) (binarylane_api w) (picker w),
   Session <$> t).

Definition outcome_of {A} (x : outcome A * machine * list activity) : outcome A :=
  x.1.1.
Definition machine_of {A} (x : outcome A * machine * list activity) : machine :=
  x.1.2.
Definition activities {A} (x : outcome A * machine * list activity)
  : list activity := x.2.

(** [execSync(c)]: throws when the command ends with a status that is
    not 0; with no outcome left for it the command never ends. *)
Definition execSync (c : command) : L () := λ w,
  match commands w with
  | ok :: rest =>
      (if ok : bool then Ret () else Throw SystemError,
       Machine (terminal w) rest (vultr_api w) (binarylane_api w) (picker w),
       [Exec c])
  | [] => (Pending, w, [Exec c])
  end.

(** [await axios.get(url, ...)]. *)
Definition axios_get (p : provider) : L value := λ w,
  match match p with Vultr => vultr_api w | BinaryLane => binarylane_api w end with
  | Refused => (Throw SystemError, w, [Request p])
  | Answered data => (Ret data, w, [Request p])
  | Silent => (Pending, w, [Request p])
  end.

(** [a.map(f)]: only an array has the method. *)
Fixpoint each {A} (f : value → L A) (items : list value) : L (list A) :=
  match items with
  | [] => mret []
  | x :: rest => y ← f x; ys ← each f rest; mret (y :: ys)
  end.

Definition array_map {A} (f : value → L A) (a : value) : L (list A) :=
  match a with
  | VArr items => each f items
  | _ => raise TypeError
  end.

(** ** index.js, lines 14-107 and 212-276 *)

(** lines 26-32: the record of one Vultr instance.  Line 31 ends with a
    lone [/] after the comma, with which the file does not parse; the
    record is read without it. *)
Definition vultr_server `{Platform} (instance : value) : L server :=
  id ← on_terminal (get_prop instance "id");
  label ← on_terminal (get_prop instance "label");
  main_ip ← on_terminal (get_prop instance "main_ip");
  tags ← on_terminal (get_prop instance "tags");
  mret (Server Vultr id
          (or_else label (VStr (units "Vultr-" ++ ToString id)))
          main_ip
          (Some (or_else tags (VArr [])))).

(** lines 17-37 *)
Definition getVultrServers `{Platform} : L (list server) :=
  guarded
    (data ← axios_get Vultr;
     instances ← on_terminal (get_prop data "instances");
     array_map vultr_server (or_else instances (VArr [])))
    (λ error, say_error (ErrorFetching Vultr);; mret []).

(** lines 51-56: the record of one BinaryLane server. *)
Definition binarylane_server `{Platform} (srv : value) : L server :=
  id ← on_terminal (get_prop srv "id");
  name ← on_terminal (get_prop srv "name");
  networks ← on_terminal (get_prop srv "networks");
  let address :=
    optional (optional (optional networks (member "v4")) first_item)
             (member "ip_address") in
  mret (Server BinaryLane id
          (or_else name (VStr (units "BL-Server-" ++ ToString id)))
          (Some (or_else address VNull))
          None).

(** lines 42-61 *)
Definition getBinarylaneServers `{Platform} : L (list server) :=
  guarded
    (data ← axios_get BinaryLane;
     servers ← on_terminal (get_prop data "servers");
     array_map binarylane_server (or_else servers (VArr [])))
    (λ error, say_error (ErrorFetching BinaryLane);; mret []).

Definition provider_text (p : provider) : jsstring :=
  match p with
  | Vultr => units "vultr"
  | BinaryLane => units "binarylane"
  end.

(** lines 68-79: the entry of one server.  [tags?.join] gives
    [undefined] without tags and throws on a value that is no array; on
    such a value the test [tags?.length > 0] changes nothing, since the
    join throws on either side of it and nothing is done before. *)
Definition server_choice `{Platform} (s : server) : L choice :=
  let providerColor :=
    match server_provider s with Vultr => Cyan | BinaryLane => Magenta end in
  let shown :=
    [(Green, ToString (Some (server_name s))); (Plain, units " ");
     (Gray, units "("); (Yellow, ToString (server_ip s)); (Gray, units ")");
     (Plain, units " "); (Gray, units "[");
     (providerColor, provider_text (server_provider s)); (Gray, units "]")] in
  let searched :=
    ToString (Some (server_name s)) ++ units " " ++ ToString (server_ip s)
      ++ units " " ++ provider_text (server_provider s) ++ units " " in
  match server_tags s with
  | Some (VArr items) =>
      let tagsDisplay :=
        match server_provider s, items with
        | Vultr, _ :: _ =>
            [(Plain, units " "); (Gray, units "{");
             (Blue, join (units ", ") items); (Gray, units "}")]
        | _, _ => []
        end in
      mret (Choice (shown ++ tagsDisplay) (Some s)
              (toLowerCase (searched ++ join (units " ") items)))
  | None | Some VNull =>
      mret (Choice shown (Some s) (toLowerCase (searched ++ ToString None)))
  | Some _ => raise TypeError
  end.

(** lines 82-86 *)
Definition cancel_choice : choice :=
  Choice [(Red, units "Cancel")] None (units "cancel").

(** lines 95-102: the entries listed for what the operator has typed. *)
Definition source `{Platform} (choices : list choice) (input : jsstring)
  : list choice :=
  List.filter
    (λ c, match input with
          | [] => true
          | _ => includes (searchValue c) (toLowerCase input)
          end)
    choices.

(** The autocomplete prompt: it lists the entries [source] gives for the
    text typed and returns the value of the entry picked. *)
Definition autocomplete `{Platform} (choices : list choice) : L (option server) := λ w,
  match picker w with
  | Some (input, position) =>
      match source choices input !! position with
      | Some c => (Ret (choice_value c), w, [Offer choices])
      | None => (Pending, w, [Offer choices])
      end
  | None => (Pending, w, [Offer choices])
  end.

Fixpoint choices_of `{Platform} (servers : list server) : L (list choice) :=
  match servers with
  | [] => mret []
  | s :: rest => c ← server_choice s; cs ← choices_of rest; mret (c :: cs)
  end.

(** lines 66-107 *)
Definition promptForServer `{Platform} (servers : list server) : L (option server) :=
  choices ← choices_of servers;
  autocomplete (choices ++ [cancel_choice]).

(** lines 215-236 *)
Definition setupSSHAgent : L () :=
  guarded
    (guarded (execSync SshAddList)
       (λ error, say StartingSshAgent;; execSync StartAgent);;
     guarded (execSync SshAddList)
       (λ error, say AddingSshKey;; execSync SshAdd))
    (λ error, say_error ErrorSettingUpSshAgent).

(** line 252 *)
Definition with_ip (servers : list server) : list server :=
  List.filter (λ s, truthy_opt (server_ip s)) servers.

(** lines 241-271.  The two fetches share nothing and are taken one
    after the other; in the program the second request is sent before
    the first answer is handled, so that their two error lines can come
    in either order.  The call of line 270 is not awaited: the outcome
    here is that of the whole flow [main] starts, as for
    [sshIntoServer], not that of the promise [main] returns. *)
Definition main `{Platform} : L () :=
  setupSSHAgent;;
  vultrServers ← getVultrServers;
  blServers ← getBinarylaneServers;
  let allServers := with_ip (vultrServers ++ blServers) in
  match allServers with
  | [] => say NoServersFound
  | _ :: _ =>
      selectedServer ← promptForServer allServers;
      match selectedServer with
      | None => say OperationCancelled
      | Some s =>
          on_terminal
            (sshIntoServer (host_key (ToString (server_ip s))) "root")
      end
  end.

(** ** Reading the activities *)

(** What the session did. *)
Definition session_events (t : list activity) : list event :=
  omap (λ a, match a with Session ev => Some ev | _ => None end) t.

(** The commands run. *)
Definition executed (t : list activity) : list command :=
  omap (λ a, match a with Exec c => Some c | _ => None end) t.

(** The lists of entries the picker was shown with. *)
Definition offers (t : list activity) : list (list choice) :=
  omap (λ a, match a with Offer cs => Some cs | _ => None end) t.

(** The error lines. *)
Definition complaints (t : list activity) : list notice :=
  omap (λ a, match a with SayError n => Some n | _ => None end) t.

(** ** A platform for ASCII data *)

(** The text of a value: a string is its own text, an integer is written
    in decimal, an array is the texts of its items with commas. *)
Fixpoint text_of (v : value) : jsstring :=
  match v with
  | VNull => units "null"
  | VBool true => units "true"
  | VBool false => units "false"
  | VNum NaN => units "NaN"
  | VNum (Int z) => units (pretty z)
  | VStr s => s
  | VArr items =>
      join_with (units ",")
        (map (λ x, match x with VNull => [] | _ => text_of x end) items)
  | VObj _ => units "[object Object]"
  end.

Definition lower_ascii (s : jsstring) : jsstring :=
  (λ c, if (65 <=? c) && (c <=? 90) then c + 32 else c)%N <$> s.

Definition ascii_key (s : jsstring) : string :=
  String.string_of_list_ascii (Ascii.ascii_of_N <$> s).

#[global] Instance ascii_platform : Platform := {|
  ToString o := match o with Some v => text_of v | None => units "undefined" end;
  toLowerCase := lower_ascii;
  host_key := ascii_key
|}.

(** ** Summaries of the launcher's parts *)

(** The record [vultr_server] builds, unless the instance is [null]. *)
Definition vultr_record `{Platform} (instance : value) : option server :=
  match instance with
  | VNull => None
  | _ =>
      Some (Server Vultr (member "id" instance)
              (or_else (member "label" instance)
                 (VStr (units "Vultr-" ++ ToString (member "id" instance))))
              (member "main_ip" instance)
              (Some (or_else (member "tags" instance) (VArr []))))
  end.

(** The address [binarylane_server] reads: [networks?.v4?.[0]?.ip_address]. *)
Definition v4_address (srv : value) : option value :=
  optional (optional (optional (member "networks" srv) (member "v4")) first_item)
           (member "ip_address").

Definition binarylane_record `{Platform} (srv : value) : option server :=
  match srv with
  | VNull => None
  | _ =>
      Some (Server BinaryLane (member "id" srv)
              (or_else (member "name" srv)
                 (VStr (units "BL-Server-" ++ ToString (member "id" srv))))
              (Some (or_else (v4_address srv) VNull))
              None)
  end.

(** The records of a body, unless something in it makes the fetch throw. *)
Definition listed (record : value → option server) (key : string) (data : value)
  : option (list server) :=
  match data with
  | VNull => None
  | _ =>
      match or_else (member key data) (VArr []) with
      | VArr items => mapM record items
      | _ => None
      end
  end.

(** What a fetch returns and does for a reply. *)
Definition inventory (record : value → option server) (key : string)
    (p : provider) (r : reply) : outcome (list server) * list activity :=
  match r with
  | Refused => (Ret [], [Request p; SayError (ErrorFetching p)])
  | Silent => (Pending, [Request p])
  | Answered data =>
      match listed record key data with
      | Some servers => (Ret servers, [Request p])
      | None => (Ret [], [Request p; SayError (ErrorFetching p)])
      end
  end.

(** The entry [server_choice] builds, unless the join throws. *)
Definition entry `{Platform} (s : server) : option choice :=
  let providerColor :=
    match server_provider s with Vultr => Cyan | BinaryLane => Magenta end in
  let shown :=
    [(Green, ToString (Some (server_name s))); (Plain, units " ");
     (Gray, units "("); (Yellow, ToString (server_ip s)); (Gray, units ")");
     (Plain, units " "); (Gray, units "[");
     (providerColor, provider_text (server_provider s)); (Gray, units "]")] in
  let searched :=
    ToString (Some (server_name s)) ++ units " " ++ ToString (server_ip s)
      ++ units " " ++ provider_text (server_provider s) ++ units " " in
  match server_tags s with
  | Some (VArr items) =>
      Some (Choice
              (shown ++
                 match server_provider s, items with
                 | Vultr, _ :: _ =>
                     [(Plain, units " "); (Gray, units "{");
                      (Blue, join (units ", ") items); (Gray, units "}")]
                 | _, _ => []
                 end)
              (Some s)
              (toLowerCase (searched ++ join (units " ") items)))
  | None | Some VNull =>
      Some (Choice shown (Some s) (toLowerCase (searched ++ ToString None)))
  | Some _ => None
  end.

(** Tags that are there and are no array: the join throws on them. *)
Definition bad_tags (s : server) : Prop :=
  match server_tags s with
  | None | Some VNull | Some (VArr _) => False
  | Some _ => True
  end.

(** ** Scenarios of the launcher *)

Definition jstr (s : string) : value := VStr (units s).

(** Two Vultr instances, the second without a label and without tags. *)
Definition vultr_body : value :=
  VObj {[ "instances" :=
    VArr [
      VObj (<["id" := jstr "a1"]> (<["label" := jstr "Web"]>
            (<["main_ip" := jstr "10.0.0.1"]>
             {["tags" := VArr [jstr "prod"; jstr "eu"]]})));
      VObj (<["id" := jstr "b2"]> {["main_ip" := jstr "10.0.0.3"]}) ] ]}.

(** Two BinaryLane servers, the second without a network. *)
Definition binarylane_body : value :=
  VObj {[ "servers" :=
    VArr [
      VObj (<["id" := VNum (Int 7)]> (<["name" := jstr "db"]>
            {["networks" :=
                VObj {["v4" := VArr [VObj {["ip_address" := jstr "10.0.0.2"]}]]}]}));
      VObj (<["id" := VNum (Int 8)]> {["name" := jstr "noip"]}) ] ]}.

(** The agent is running with a key, both providers answer, the operator
    types "DB" and picks the first entry listed; the session on port 22
    ends with status 0. *)
Definition picks_db : machine :=
  Machine (world no_store [closes 0] []) [true; true]
    (Answered vultr_body) (Answered binarylane_body) (Some (units "DB", 0%nat)).

(** The same, but the operator types "can" and picks the first entry. *)
Definition picks_cancel : machine :=
  Machine (world no_store [closes 0] []) [true; true]
    (Answered vultr_body) (Answered binarylane_body) (Some (units "can", 0%nat)).

(** No agent, and none can be started; no provider can be reached. *)
Definition nothing_works : machine :=
  Machine (world no_store [] []) [false; false; true; true] Refused Refused None.

(** A Vultr instance whose tags are a text, not a list. *)
Definition tagged_with_text : machine :=
  Machine (world no_store [closes 0] []) [true; true]
    (Answered (VObj {[ "instances" :=
       VArr [VObj (<["main_ip" := jstr "10.0.0.1"]> {["tags" := jstr "prod"]})] ]}))
    Refused (Some ([], 0%nat)).

(** One instance of the list is [null]. *)
Definition null_instance : machine :=
  Machine (world no_store [] []) [true; true]
    (Answered (VObj {[ "instances" :=
       VArr [VObj {["main_ip" := jstr "10.0.0.1"]}; VNull] ]}))
    Refused None.

(** * Properties *)

(** Looks at the three components of a run. *)
Ltac observe := unfold result, final, trace; cbn [fst snd].

Lemma bind_run {A B} (m : M A) (f : A → M B) e :
  (m ≫= f) e =
    match m e with
    | (Ret a, e1, t1) => let '(r, e2, t2) := f a e1 in (r, e2, t1 ++ t2)
    | (Throw x, e1, t1) => (Throw x, e1, t1)
    | (Pending, e1, t1) => (Pending, e1, t1)
    end.
Proof. reflexivity. Qed.

(** ** The store *)

Lemma loadPortConfigs_run e :
  loadPortConfigs e = (Ret (loaded (store e)), e, load_log (store e)).
Proof.
  destruct e as [[n r w] cs kb].
  unfold loadPortConfigs, loaded, load_log.
  destruct n as [[|v]|], r; reflexivity.
Qed.

Lemma savePortConfig_run ip port e :
  savePortConfig ip port e =
    match assigned (loaded (store e)) ip port with
    | Some cfg =>
        if can_write (store e)
        then (Ret (),
              Env (Disk (Some (Json cfg)) (can_read (store e)) true)
                  (children e) (keyboard e),
              load_log (store e) ++ [WriteFile (Json cfg)])
        else (Ret (), e,
              load_log (store e) ++ [LogError ErrorSavingPortConfiguration])
    | None =>
        (Ret (), e, load_log (store e) ++ [LogError ErrorSavingPortConfiguration])
    end.
Proof.
  unfold savePortConfig, try_catch.
  rewrite bind_run, loadPortConfigs_run.
  destruct e as [[n r w] cs kb]; simpl.
  destruct (loaded _) eqn:Hcfg; simpl;
    unfold writeFileSync; simpl; destruct w; simpl;
    rewrite ?app_nil_r; reflexivity.
Qed.

(** ** One connection attempt *)

Lemma deliver_run events promise e :
  deliver events promise e = (Ret (settle events promise), e, heard events promise).
Proof.
  revert promise; induction events as [|ev rest IH]; intros promise; [done|].
  destruct ev as [|code]; simpl; rewrite bind_run.
  - unfold on_error. destruct promise as [b|]; simpl; by rewrite IH.
  - unfold on_close, said, verdict.
    destruct (strict_eq code 255), promise as [b|]; simpl; by rewrite IH.
Qed.

Lemma settle_settled events b : settle events (Some b) = Some b.
Proof. induction events as [|ev rest IH]; [done|]. simpl. apply IH. Qed.

Lemma settle_head events : settle events None = verdict <$> head events.
Proof. destruct events as [|ev rest]; [done|]. simpl. apply settle_settled. Qed.

Lemma trySSHConnection_run ip user port e :
  trySSHConnection ip user port e =
    (awaited (settle (hd [] (children e)) None),
     Env (store e) (tl (children e)) (keyboard e),
     attempt_log ip user port (hd [] (children e))).
Proof.
  unfold trySSHConnection, attempt_log.
  destruct e as [d cs kb]. do 3 (rewrite bind_run; simpl).
  unfold spawn; simpl.
  destruct cs as [|c cs]; simpl; [done|].
  rewrite bind_run, deliver_run.
  destruct (settle _ None) as [b|]; simpl; by rewrite ?app_nil_r.
Qed.

(** ** The prompt *)

Lemma read_lines_rejected bad line rest :
  Forall (λ l, accepted l = false) bad →
  accepted line = true →
  read_lines defaultPort_string validate (bad ++ line :: rest) =
    (Ret (answer_of defaultPort_string line), rest,
     Reject <$> (answer_of defaultPort_string <$> bad)).
Proof.
  intros Hbad Hline. induction Hbad as [|l bad Hl _ IH]; simpl.
  - unfold accepted in Hline. by rewrite Hline.
  - unfold accepted in Hl. by rewrite Hl, IH.
Qed.

Lemma read_lines_pending lines :
  Forall (λ l, accepted l = false) lines →
  read_lines defaultPort_string validate lines =
    (Pending, [], Reject <$> (answer_of defaultPort_string <$> lines)).
Proof.
  induction 1 as [|l bad Hl _ IH]; simpl; [done|].
  unfold accepted in Hl. by rewrite Hl, IH.
Qed.

Lemma promptForPort_run e :
  promptForPort e =
    let '(r, unread, t) := read_lines defaultPort_string validate (keyboard e) in
    (match r with
     | Ret a => Ret (VNum (parseInt a))
     | Throw x => Throw x
     | Pending => Pending
     end,
     Env (store e) (children e) unread, Ask :: t).
Proof.
  unfold promptForPort, inquirer_prompt. rewrite bind_run.
  destruct (read_lines _ _ _) as [[[a|x|] unread] t]; simpl;
    by rewrite ?app_nil_r.
Qed.

(** ** The negotiation, case by case *)

Lemma savePortConfig_ret ip port e : result (savePortConfig ip port e) = Ret ().
Proof.
  rewrite savePortConfig_run.
  destruct (assigned _ _ _); [destruct (can_write _)|]; reflexivity.
Qed.

Lemma negotiation_run ip user port e :
  negotiation ip user port e =
    let c1 := hd [] (children e) in
    let cs := tl (children e) in
    let t1 := attempt_log ip user port c1 in
    match settle c1 None with
    | None => (Pending, Env (store e) cs (keyboard e), t1)
    | Some true => (Ret (), Env (store e) cs (keyboard e), t1)
    | Some false =>
        let '(r, unread, tq) :=
          read_lines defaultPort_string validate (keyboard e) in
        let t2 := t1 ++ Log ConnectionFailed :: Ask :: tq in
        match r with
        | Ret a =>
            let port2 := VNum (parseInt a) in
            let e2 := Env (store e) (tl cs) unread in
            let t3 := t2 ++ attempt_log ip user port2 (hd [] cs) in
            match settle (hd [] cs) None with
            | None => (Pending, e2, t3)
            | Some false => (Ret (), e2, t3)
            | Some true =>
                (Ret (), final (savePortConfig ip port2 e2),
                 t3 ++ trace (savePortConfig ip port2 e2)
                    ++ [Log (PortSaved port2 ip)])
            end
        | Throw x => (Throw x, Env (store e) cs unread, t2)
        | Pending => (Pending, Env (store e) cs unread, t2)
        end
    end.
Proof.
  unfold negotiation. rewrite bind_run, trySSHConnection_run.
  destruct (settle (hd [] (children e)) None) as [[|]|]; simpl;
    [by rewrite app_nil_r| |done].
  rewrite bind_run; simpl. rewrite bind_run, promptForPort_run; simpl.
  destruct (read_lines _ _ _) as [[[a|x|] unread] tq]; simpl; [|done|done].
  rewrite bind_run, trySSHConnection_run; simpl.
  destruct (settle (hd [] (tl (children e))) None) as [[|]|]; simpl.
  - rewrite bind_run.
    pose proof (savePortConfig_ret ip (VNum (parseInt a))
                  (Env (store e) (tl (tl (children e))) unread)) as Hret.
    destruct (savePortConfig _ _ _) as [[r e3] t3].
    unfold result in Hret; simpl in Hret; subst r.
    unfold attempt_log, final, trace; simpl. f_equal.
    by rewrite <- !app_assoc.
  - unfold attempt_log; simpl. f_equal. rewrite app_nil_r.
    by rewrite <- !app_assoc.
  - unfold attempt_log; simpl. f_equal. by rewrite <- !app_assoc.
Qed.

(** ** Traces *)

Lemma attempts_app t u : attempts (t ++ u) = attempts t ++ attempts u.
Proof. apply omap_app. Qed.

Lemma outcomes_app t u : outcomes (t ++ u) = outcomes t ++ outcomes u.
Proof. apply omap_app. Qed.

Lemma writes_app t u : writes (t ++ u) = writes t ++ writes u.
Proof. apply omap_app. Qed.

Lemma prompts_app t u : prompts (t ++ u) = (prompts t + prompts u)%nat.
Proof. unfold prompts. by rewrite omap_app, length_app. Qed.

Lemma heard_quiet c promise :
  attempts (heard c promise) = [] ∧ prompts (heard c promise) = 0%nat
  ∧ writes (heard c promise) = [].
Proof.
  revert promise; induction c as [|ev c IH]; intros promise; [done|].
  simpl. rewrite !attempts_app, !prompts_app, !writes_app.
  destruct (IH (settled (verdict ev) promise)) as (-> & -> & ->).
  destruct ev as [|code], promise as [b|]; simpl;
    try destruct (strict_eq code 255); done.
Qed.

Lemma heard_outcomes c promise :
  outcomes (heard c promise) =
    match promise, settle c None with
    | None, Some b => [b]
    | _, _ => []
    end.
Proof.
  revert promise; induction c as [|ev c IH]; intros promise.
  - by destruct promise.
  - simpl. rewrite !outcomes_app, IH, settle_settled.
    destruct ev as [|code], promise as [b|]; simpl;
      try destruct (strict_eq code 255); simpl;
      try destruct (settle c None); done.
Qed.

Lemma attempt_log_read ip user port c :
  attempts (attempt_log ip user port c) = [port]
  ∧ outcomes (attempt_log ip user port c) =
      match settle c None with Some b => [b] | None => [] end
  ∧ prompts (attempt_log ip user port c) = 0%nat
  ∧ writes (attempt_log ip user port c) = [].
Proof.
  unfold attempt_log.
  rewrite attempts_app, outcomes_app, prompts_app, writes_app, heard_outcomes.
  by destruct (heard_quiet c None) as (-> & -> & ->).
Qed.

Lemma rejects_read (answers : list jsstring) :
  attempts (Reject <$> answers) = [] ∧ outcomes (Reject <$> answers) = []
  ∧ prompts (Reject <$> answers) = 0%nat ∧ writes (Reject <$> answers) = [].
Proof. induction answers as [|a answers IH]; [done|]. apply IH. Qed.

Lemma save_trace_read ip port e :
  attempts (trace (savePortConfig ip port e)) = []
  ∧ outcomes (trace (savePortConfig ip port e)) = []
  ∧ prompts (trace (savePortConfig ip port e)) = 0%nat.
Proof.
  rewrite savePortConfig_run. unfold load_log.
  destruct e as [[n r w] cs kb]; simpl.
  destruct (assigned _ _ _), w, n as [[|?]|], r; done.
Qed.

Lemma load_log_read d :
  attempts (load_log d) = [] ∧ outcomes (load_log d) = []
  ∧ prompts (load_log d) = 0%nat ∧ writes (load_log d) = [].
Proof. unfold load_log. by destruct (node d) as [[|v]|], (can_read d). Qed.

Lemma first_round_read ip user port c (answers : list jsstring) :
  let before :=
    attempt_log ip user port c ++ Log ConnectionFailed :: Ask
      :: (Reject <$> answers) in
  attempts before = [port]
  ∧ outcomes before = match settle c None with Some b => [b] | None => [] end
  ∧ prompts before = 1%nat
  ∧ writes before = [].
Proof.
  intros before. subst before.
  pose proof (attempt_log_read ip user port c) as (A1 & O1 & P1 & W1).
  pose proof (rejects_read answers) as (A3 & O3 & P3 & W3).
  change (Log ConnectionFailed :: Ask :: (Reject <$> answers))
    with ([Log ConnectionFailed; Ask] ++ (Reject <$> answers)).
  rewrite !attempts_app, !outcomes_app, !prompts_app, !writes_app.
  rewrite A1, A3, O1, O3, P1, P3, W1, W3.
  split_and!; [done| |done|done].
  by destruct (settle c None).
Qed.

(** ** The port validator *)

Lemma validate_spec input :
  validate input = true ↔ ∃ n, parseInt input = Int n ∧ (0 < n < 65536)%Z.
Proof.
  unfold validate, gt, lt. destruct (parseInt input) as [|z]; simpl.
  - split; [done|]. by intros (n & ? & _).
  - rewrite andb_true_iff, !Z.ltb_lt. split.
    + intros [? ?]. exists z. by split; [|lia].
    + intros (n & [= ->] & ?). lia.
Qed.

(** C1: for every exit status the ['close'] listener gets, and for [null]
    when the child was killed by a signal, the attempt resolves to
    failure exactly when the status is 255 and to success for every other
    status, 0 and the other nonzero ones included. *)
Theorem exit_status_classification (code : option Z) ip user port d cs kb :
  result (on_close code None (Env d cs kb))
    = Ret (Some (if decide (code = Some 255%Z) then false else true))
  ∧ result (trySSHConnection ip user port (Env d ([EvClose code] :: cs) kb))
    = Ret (if decide (code = Some 255%Z) then false else true).
Proof.
  rewrite trySSHConnection_run. unfold on_close, result; simpl.
  destruct (decide (code = Some 255%Z)) as [->|Hne]; [done|].
  assert (strict_eq code 255 = false) as ->; [|done].
  destruct code as [z|]; [|done]. simpl.
  apply Z.eqb_neq. by intros ->.
Qed.

(** ** The negotiation *)

Lemma negotiation_retried ip user port e bad line rest :
  fails (hd [] (children e)) →
  keyboard e = bad ++ line :: rest →
  Forall (λ l, accepted l = false) bad →
  accepted line = true →
  let port2 := VNum (parseInt (answer_of defaultPort_string line)) in
  let c2 := hd [] (tl (children e)) in
  let e2 := Env (store e) (tl (tl (children e))) rest in
  let before :=
    attempt_log ip user port (hd [] (children e))
      ++ Log ConnectionFailed :: Ask
      :: (Reject <$> (answer_of defaultPort_string <$> bad)) in
  negotiation ip user port e =
    match settle c2 None with
    | None => (Pending, e2, before ++ attempt_log ip user port2 c2)
    | Some false => (Ret (), e2, before ++ attempt_log ip user port2 c2)
    | Some true =>
        (Ret (), final (savePortConfig ip port2 e2),
         (before ++ attempt_log ip user port2 c2)
           ++ trace (savePortConfig ip port2 e2) ++ [Log (PortSaved port2 ip)])
    end.
Proof.
  intros H1 Hkb Hbad Hline port2 c2 e2 before.
  rewrite negotiation_run; cbn zeta. rewrite H1, Hkb.
  by rewrite read_lines_rejected.
Qed.

Lemma negotiation_two_failures ip user port e bad line rest :
  fails (hd [] (children e)) →
  keyboard e = bad ++ line :: rest →
  Forall (λ l, accepted l = false) bad →
  accepted line = true →
  let port2 := VNum (parseInt (answer_of defaultPort_string line)) in
  let c2 := hd [] (tl (children e)) in
  let before :=
    attempt_log ip user port (hd [] (children e))
      ++ Log ConnectionFailed :: Ask
      :: (Reject <$> (answer_of defaultPort_string <$> bad)) in
  fails c2 →
  negotiation ip user port e =
    (Ret (), Env (store e) (tl (tl (children e))) rest,
     before ++ attempt_log ip user port2 c2).
Proof.
  intros H1 Hkb Hbad Hline port2 c2 before H2.
  rewrite (negotiation_retried ip user port e bad line rest) by done.
  cbn zeta. fold c2. by rewrite H2.
Qed.

Lemma launch_error_fails c : launch_error c → fails c.
Proof. unfold launch_error, fails. rewrite settle_head. by intros ->. Qed.

Lemma launch_error_heard c :
  launch_error c → ∃ t, heard c None = LogError FailedToStartSSH :: Resolve false :: t.
Proof. destruct c as [|[|code] more]; [done| |done]. intros _. by eexists. Qed.

(** C3: when every connection attempt that is made fails, and the
    operator gives a port the prompt takes, the negotiation makes exactly
    two attempts, the first on the port it was entered with and the second
    on the operator's port, and then ends: the second attempt's log closes
    the trace, the one prompt was shown before it, the next child is never
    spawned and nothing is written. *)
Theorem two_attempts_then_gave_up ip user port e c1 c2 cs bad line rest :
  children e = c1 :: c2 :: cs →
  fails c1 →
  fails c2 →
  keyboard e = bad ++ line :: rest →
  Forall (λ l, accepted l = false) bad →
  accepted line = true →
  let run := negotiation ip user port e in
  let port2 := VNum (parseInt (answer_of defaultPort_string line)) in
  result run = Ret ()
  ∧ attempts (trace run) = [port; port2]
  ∧ outcomes (trace run) = [false; false]
  ∧ prompts (trace run) = 1%nat
  ∧ writes (trace run) = []
  ∧ (∃ before,
       trace run = before ++ attempt_log ip user port2 c2
       ∧ attempts before = [port] ∧ prompts before = 1%nat)
  ∧ children (final run) = cs
  ∧ store (final run) = store e.
Proof.
  intros Hcs H1 H2 Hkb Hbad Hline run port2.
  pose proof (negotiation_two_failures ip user port e bad line rest) as Hrun.
  rewrite Hcs in Hrun; cbn [hd tail] in Hrun.
  specialize (Hrun H1 Hkb Hbad Hline H2).
  subst run port2. rewrite Hrun. observe.
  set (port2 := VNum (parseInt (answer_of defaultPort_string line))).
  pose proof (first_round_read ip user port c1
                (answer_of defaultPort_string <$> bad)) as (Ab & Ob & Pb & Wb).
  pose proof (attempt_log_read ip user port2 c2) as (A2 & O2 & P2 & W2).
  cbn zeta in Ab, Ob, Pb, Wb. rewrite H1 in Ob. rewrite H2 in O2.
  split_and!; try done.
  - by rewrite attempts_app, Ab, A2.
  - by rewrite outcomes_app, Ob, O2.
  - by rewrite prompts_app, Pb, P2.
  - by rewrite writes_app, Wb, W2.
  - by eexists.
Qed.

Lemma two_attempts_then_gave_up_witness :
  result (negotiation "10.0.0.1" "root" (VNum (Int 22)) both_attempts_fail)
    = Ret ()
  ∧ attempts (trace (negotiation "10.0.0.1" "root" (VNum (Int 22))
                       both_attempts_fail))
    = [VNum (Int 22); VNum (Int 2222)]
  ∧ children (final (negotiation "10.0.0.1" "root" (VNum (Int 22))
                       both_attempts_fail))
    = [closes 0].
Proof.
  destruct (two_attempts_then_gave_up "10.0.0.1" "root" (VNum (Int 22))
              both_attempts_fail
              (closes 255) [EvError; EvClose (Some (-2)%Z)] [closes 0]
              [units "0"; units "abc"] (units "2222") [units "22"])
    as (Hr & Ha & _ & _ & _ & _ & Hc & _).
  - reflexivity.
  - reflexivity.
  - reflexivity.
  - reflexivity.
  - repeat constructor.
  - reflexivity.
  - split; [exact Hr|split; [exact Ha|exact Hc]].
Defined.

(** ** The whole call *)

Lemma sshIntoServer_run ip user e :
  sshIntoServer ip user e =
    match loaded (store e) with
    | VNull => (Throw TypeError, e, load_log (store e))
    | cfg =>
        let '(r, e', t) := negotiation ip user (first_port cfg ip) e in
        (r, e', load_log (store e) ++ t)
    end.
Proof.
  unfold sshIntoServer. rewrite bind_run, loadPortConfigs_run.
  destruct (loaded (store e)) eqn:Hcfg; simpl; [by rewrite app_nil_r|..];
    rewrite bind_run; unfold first_port; simpl;
    by destruct (negotiation _ _ _ _) as [[[] e'] t].
Qed.

(** C4, as the code has it: a client that cannot be launched is reported
    and counts as a failed attempt like any other.  After such a first
    attempt the operator is asked for a port, once, and one more attempt
    is made on it; when that one cannot be launched either, the flow ends
    with both attempts failed and nothing written. *)
Theorem launch_error_counts_as_failure ip user port e c1 cs bad line rest :
  children e = c1 :: cs →
  launch_error c1 →
  keyboard e = bad ++ line :: rest →
  Forall (λ l, accepted l = false) bad →
  accepted line = true →
  let run := negotiation ip user port e in
  let port2 := VNum (parseInt (answer_of defaultPort_string line)) in
  LogError FailedToStartSSH ∈ trace run
  ∧ prompts (trace run) = 1%nat
  ∧ attempts (trace run) = [port; port2]
  ∧ (launch_error (hd [] cs) →
     result run = Ret () ∧ outcomes (trace run) = [false; false]
     ∧ writes (trace run) = []).
Proof.
  intros Hcs Hc1 Hkb Hbad Hline run port2.
  pose proof (negotiation_retried ip user port e bad line rest) as Hrun.
  rewrite Hcs in Hrun; cbn [hd tail] in Hrun.
  specialize (Hrun (launch_error_fails _ Hc1) Hkb Hbad Hline).
  cbn zeta in Hrun. subst run port2.
  set (port2 := VNum (parseInt (answer_of defaultPort_string line))) in *.
  set (c2 := hd [] cs) in *.
  set (e2 := Env (store e) (tail cs) rest) in *.
  pose proof (first_round_read ip user port c1
                (answer_of defaultPort_string <$> bad)) as (Ab & Ob & Pb & Wb).
  pose proof (attempt_log_read ip user port2 c2) as (A2 & O2 & P2 & W2).
  pose proof (save_trace_read ip port2 e2) as (A4 & O4 & P4).
  cbn zeta in Ab, Ob, Pb, Wb.
  rewrite (launch_error_fails _ Hc1) in Ob.
  set (before := attempt_log ip user port c1 ++ Log ConnectionFailed :: Ask
                   :: (Reject <$> (answer_of defaultPort_string <$> bad))) in *.
  assert (LogError FailedToStartSSH ∈ before) as Hin.
  { apply elem_of_app; left. unfold attempt_log.
    destruct (launch_error_heard _ Hc1) as [t ->]. set_solver. }
  split_and!.
  - rewrite Hrun.
    destruct (settle c2 None) as [[|]|]; unfold trace at 1; cbn [snd];
      rewrite ?elem_of_app; auto.
  - rewrite Hrun.
    destruct (settle c2 None) as [[|]|]; unfold trace at 1; cbn [snd];
      rewrite !prompts_app, ?Pb, ?P2, ?P4; done.
  - rewrite Hrun.
    destruct (settle c2 None) as [[|]|]; unfold trace at 1; cbn [snd];
      rewrite !attempts_app, ?Ab, ?A2, ?A4; done.
  - intros Hc2. apply launch_error_fails in Hc2. unfold fails in Hc2.
    rewrite Hc2 in Hrun, O2. rewrite Hrun. observe.
    by rewrite outcomes_app, writes_app, Ob, O2, Wb, W2.
Qed.

Lemma launch_error_counts_as_failure_witness :
  LogError FailedToStartSSH
    ∈ trace (negotiation "10.0.0.1" "root" (VNum (Int 22)) launch_fails_first)
  ∧ prompts (trace (negotiation "10.0.0.1" "root" (VNum (Int 22))
                      launch_fails_first)) = 1%nat
  ∧ attempts (trace (negotiation "10.0.0.1" "root" (VNum (Int 22))
                       launch_fails_first))
    = [VNum (Int 22); VNum (Int 2222)].
Proof.
  destruct (launch_error_counts_as_failure "10.0.0.1" "root" (VNum (Int 22))
              launch_fails_first [EvError; EvClose (Some (-2)%Z)] [closes 0]
              [] (units "2222") [])
    as (Hin & Hp & Ha & _).
  - reflexivity.
  - reflexivity.
  - reflexivity.
  - constructor.
  - reflexivity.
  - split; [exact Hin|split; [exact Hp|exact Ha]].
Defined.

(** C4 as the claim has it does not hold: the client cannot be launched
    (the child emits ['error'], then ['close'] with a negative status),
    and the call still asks the operator for a port and makes a second
    attempt, on port 2222, which connects. *)
Lemma launch_error_is_retried :
  launch_error [EvError; EvClose (Some (-2)%Z)]
  ∧ children launch_fails_first = [[EvError; EvClose (Some (-2)%Z)]; closes 0]
  ∧ prompts (trace (sshIntoServer "10.0.0.1" "root" launch_fails_first)) = 1%nat
  ∧ attempts (trace (sshIntoServer "10.0.0.1" "root" launch_fails_first))
    = [VNum (Int 22); VNum (Int 2222)]
  ∧ outcomes (trace (sshIntoServer "10.0.0.1" "root" launch_fails_first))
    = [false; true].
Proof. by vm_compute. Qed.

(** ** When the store is written *)

Lemma read_lines_sound lines :
  ∃ answers,
    (read_lines defaultPort_string validate lines).2 = Reject <$> answers
    ∧ match (read_lines defaultPort_string validate lines).1.1 with
      | Ret a => validate a = true
      | Throw _ => False
      | Pending => True
      end.
Proof.
  induction lines as [|l lines (answers & Ht & Hr)]; simpl.
  - by exists [].
  - destruct (validate (answer_of defaultPort_string l)) eqn:Hv; simpl.
    + by exists [].
    + destruct (read_lines _ _ lines) as [[r unread] t]; simpl in *.
      exists (answer_of defaultPort_string l :: answers). by rewrite Ht.
Qed.








(** ** What is written, and when *)




(** ** Saving and loading *)





(** Nor is the port kept when the file holds [null]: the assignment
    throws, the handler reports it, and the file stays as it was. *)
Lemma save_on_null_store_is_lost :
  savePortConfig "10.0.0.1" (VNum (Int 2200)) null_store
    = (Ret (), null_store, [LogError ErrorSavingPortConfiguration]).
Proof. reflexivity. Qed.

(** ** The prompt for a port *)

(** C7: the validator refuses "0", "65536", "-1" and "abc" and takes
    "22", "2222" and "65535"; it takes an input exactly when [parseInt]
    reads from it an integer strictly between 0 and 65536; and however
    many lines the operator has refused, the prompt stays up, once asked,
    and returns with the first line that is taken. *)
Theorem prompt_repeats_until_valid e bad line rest :
  keyboard e = bad ++ line :: rest →
  Forall (λ l, accepted l = false) bad →
  accepted line = true →
  (validate (units "0") = false ∧ validate (units "65536") = false
   ∧ validate (units "-1") = false ∧ validate (units "abc") = false
   ∧ validate (units "22") = true ∧ validate (units "2222") = true
   ∧ validate (units "65535") = true)
  ∧ (∀ input,
       validate input = true ↔ ∃ n, parseInt input = Int n ∧ (0 < n < 65536)%Z)
  ∧ promptForPort e =
      (Ret (VNum (parseInt (answer_of defaultPort_string line))),
       Env (store e) (children e) rest,
       Ask :: (Reject <$> (answer_of defaultPort_string <$> bad)))
  ∧ prompts (trace (promptForPort e)) = 1%nat
  ∧ length (trace (promptForPort e)) = S (length bad).
Proof.
  intros Hkb Hbad Hline.
  assert (promptForPort e =
            (Ret (VNum (parseInt (answer_of defaultPort_string line))),
             Env (store e) (children e) rest,
             Ask :: (Reject <$> (answer_of defaultPort_string <$> bad))))
    as Hrun.
  { rewrite promptForPort_run, Hkb. by rewrite read_lines_rejected. }
  split_and!; try exact Hrun; try reflexivity.
  - apply validate_spec.
  - rewrite Hrun. unfold trace; cbn [snd].
    change (Ask :: (Reject <$> (answer_of defaultPort_string <$> bad)))
      with ([Ask] ++ (Reject <$> (answer_of defaultPort_string <$> bad))).
    rewrite prompts_app.
    by destruct (rejects_read (answer_of defaultPort_string <$> bad))
      as (_ & _ & -> & _).
  - rewrite Hrun. unfold trace; cbn [snd length].
    by rewrite !length_fmap.
Qed.

Lemma prompt_repeats_until_valid_witness :
  promptForPort (world no_store [] ["0"; "65536"; "-1"; "abc"; "22"; "2222"])
  = (Ret (VNum (Int 22)), world no_store [] ["2222"],
     [Ask; Reject (units "0"); Reject (units "65536"); Reject (units "-1");
      Reject (units "abc")]).
Proof.
  destruct (prompt_repeats_until_valid
              (world no_store [] ["0"; "65536"; "-1"; "abc"; "22"; "2222"])
              [units "0"; units "65536"; units "-1"; units "abc"]
              (units "22") [units "2222"])
    as (_ & _ & Hrun & _).
  - reflexivity.
  - repeat constructor.
  - reflexivity.
  - exact Hrun.
Defined.

(** Without a line that is taken the prompt never returns. *)
Lemma prompt_waits_for_a_valid_line e :
  Forall (λ l, accepted l = false) (keyboard e) →
  result (promptForPort e) = Pending.
Proof.
  intros Hbad. rewrite promptForPort_run.
  by rewrite read_lines_pending.
Qed.

(** An empty line stands for the default and is taken. *)
Lemma empty_line_is_the_default : accepted [] = true.
Proof. reflexivity. Qed.

(** ** parseInt on a numeral followed by something else *)

Lemma is_decimal_digit c :
  is_decimal c = true → digit_in 10 c = Some (Z.of_N c - 48)%Z.
Proof.
  unfold is_decimal, digit_in, digit. intros Hc. rewrite Hc.
  apply andb_true_iff in Hc as [H1%N.leb_le H2%N.leb_le].
  destruct (Z.ltb_spec (Z.of_N c - 48) 10); [done|lia].
Qed.

Lemma not_decimal_no_digit c : is_decimal c = false → digit_in 10 c = None.
Proof.
  unfold is_decimal, digit_in, digit. intros ->.
  destruct ((97 <=? c)%N && (c <=? 122)%N) eqn:Hlow.
  - apply andb_true_iff in Hlow as [H1%N.leb_le H2%N.leb_le].
    destruct (Z.ltb_spec (Z.of_N c - 87) 10); [lia|done].
  - destruct ((65 <=? c)%N && (c <=? 90)%N) eqn:Hup; [|done].
    apply andb_true_iff in Hup as [H1%N.leb_le H2%N.leb_le].
    destruct (Z.ltb_spec (Z.of_N c - 55) 10); [lia|done].
Qed.

Lemma numeral_decimal ds rest acc :
  ds ≠ [] →
  Forall (λ c, is_decimal c = true) ds →
  match rest with c :: _ => is_decimal c = false | [] => True end →
  numeral 10 acc (ds ++ rest)
    = Int (foldl (λ a c, a * 10 + (Z.of_N c - 48))%Z (so_far acc) ds).
Proof.
  intros Hne Hds Hrest. revert acc Hne.
  induction Hds as [|c ds Hc Hds IH]; intros acc Hne; [done|].
  simpl. rewrite (is_decimal_digit c Hc).
  destruct ds as [|c' ds'].
  - simpl. destruct rest as [|x rest]; [by destruct acc|].
    simpl. rewrite (not_decimal_no_digit x Hrest). by destruct acc.
  - rewrite IH by done. by destruct acc.
Qed.

Lemma decimal_cases c :
  is_decimal c = true →
  (c = 48 ∨ c = 49 ∨ c = 50 ∨ c = 51 ∨ c = 52 ∨ c = 53 ∨ c = 54 ∨ c = 55
   ∨ c = 56 ∨ c = 57)%N.
Proof.
  unfold is_decimal. intros [H1%N.leb_le H2%N.leb_le]%andb_true_iff. lia.
Qed.

Lemma decimal_starts_numeral c s :
  is_decimal c = true →
  trim_start (c :: s) = c :: s ∧ strip_sign (c :: s) = (false, c :: s).
Proof.
  intros Hc. destruct (decimal_cases c Hc) as [H|H];
    repeat (destruct H as [->|H]; [done|]); by subst.
Qed.

Lemma decimal_no_prefix c x s :
  is_decimal x = true → strip_prefix (c :: x :: s) = (10%Z, c :: x :: s).
Proof.
  intros Hx. unfold strip_prefix.
  assert ((x =? 120) || (x =? 88) = false)%N as ->; [|by rewrite andb_false_r].
  destruct (decimal_cases x Hx) as [H|H];
    repeat (destruct H as [->|H]; [done|]); by subst.
Qed.

Lemma parseInt_decimal ds rest :
  ds ≠ [] →
  Forall (λ c, is_decimal c = true) ds →
  match rest with c :: _ => is_decimal c = false | [] => True end →
  (0 < decimal_value ds)%Z →
  parseInt (ds ++ rest) = Int (decimal_value ds).
Proof.
  intros Hne Hds Hrest Hpos. unfold parseInt.
  destruct ds as [|c ds]; [done|].
  pose proof (Forall_inv Hds) as Hc. pose proof (Forall_inv_tail Hds) as Hds'.
  destruct (decimal_starts_numeral c (ds ++ rest) Hc) as [Htrim Hsign].
  cbn [app]. rewrite Htrim, Hsign.
  assert (strip_prefix (c :: ds ++ rest) = (10%Z, c :: ds ++ rest)) as ->.
  { destruct ds as [|x ds].
    - unfold strip_prefix. destruct rest as [|x rest]; [done|]. cbn [app].
      assert ((c =? 48)%N = false) as ->; [|done].
      apply N.eqb_neq. intros ->. unfold decimal_value in Hpos.
      simpl in Hpos. lia.
    - apply decimal_no_prefix. by apply (Forall_inv Hds'). }
  change (c :: ds ++ rest) with ((c :: ds) ++ rest).
  by rewrite (numeral_decimal (c :: ds) rest NaN).
Qed.

(** C10: an input that starts with a decimal numeral whose value is
    strictly between 0 and 65536, whatever follows the numeral's last
    digit, is read by [parseInt] as that value and taken by the validator;
    the prompt returns the number, not the text, and the second attempt
    is made on that number. *)
Theorem numeral_prefix_is_accepted ds rest ip user port d c1 cs kb :
  ds ≠ [] →
  Forall (λ c, is_decimal c = true) ds →
  match rest with c :: _ => is_decimal c = false | [] => True end →
  (0 < decimal_value ds < 65536)%Z →
  fails c1 →
  parseInt (ds ++ rest) = Int (decimal_value ds)
  ∧ validate (ds ++ rest) = true
  ∧ result (promptForPort (Env d cs ((ds ++ rest) :: kb)))
    = Ret (VNum (Int (decimal_value ds)))
  ∧ attempts (trace (negotiation ip user port
                       (Env d (c1 :: cs) ((ds ++ rest) :: kb))))
    = [port; VNum (Int (decimal_value ds))].
Proof.
  intros Hne Hds Hrest Hrange H1.
  assert (parseInt (ds ++ rest) = Int (decimal_value ds)) as Hparse.
  { apply parseInt_decimal; [done..|lia]. }
  assert (validate (ds ++ rest) = true) as Hvalid.
  { apply validate_spec. by exists (decimal_value ds). }
  assert (answer_of defaultPort_string (ds ++ rest) = ds ++ rest) as Hans.
  { by destruct ds. }
  assert (accepted (ds ++ rest) = true) as Hacc.
  { unfold accepted. by rewrite Hans. }
  split_and!; [done|done|..].
  - rewrite promptForPort_run; cbn [keyboard].
    pose proof (read_lines_rejected [] (ds ++ rest) kb (Forall_nil_2 _) Hacc)
      as Hread.
    cbn [app fmap list_fmap] in Hread. unfold jsstring in *. rewrite Hread.
    unfold result; cbn [fst]. by rewrite Hans, Hparse.
  - pose proof (negotiation_retried ip user port
                  (Env d (c1 :: cs) ((ds ++ rest) :: kb)) [] (ds ++ rest) kb)
      as Hrun.
    cbn [children keyboard hd tail] in Hrun.
    rewrite (Hrun H1 eq_refl (Forall_nil_2 _) Hacc). clear Hrun.
    cbn zeta. rewrite Hans, Hparse.
    set (port2 := VNum (Int (decimal_value ds))).
    pose proof (attempt_log_read ip user port c1) as (A1 & _).
    pose proof (attempt_log_read ip user port2 (hd [] cs)) as (A2 & _).
    pose proof (save_trace_read ip port2 (Env d (tail cs) kb)) as (As & _).
    cbn [fmap list_fmap store].
    destruct (settle (hd [] cs) None) as [[|]|]; unfold trace at 1; cbn [snd];
      by rewrite !attempts_app, ?A1, ?A2, ?As.
Qed.

Lemma numeral_prefix_is_accepted_witness :
  parseInt (units "22abc") = Int 22
  ∧ validate (units "22abc") = true
  ∧ result (promptForPort (Env no_store [closes 0] [units "22abc"]))
    = Ret (VNum (Int 22))
  ∧ attempts (trace (negotiation "10.0.0.1" "root" (VNum (Int 22))
                       (Env no_store [closes 255; closes 0] [units "22abc"])))
    = [VNum (Int 22); VNum (Int 22)].
Proof.
  apply (numeral_prefix_is_accepted (units "22") (units "abc")
           "10.0.0.1" "root" (VNum (Int 22)) no_store (closes 255)
           [closes 0] []).
  - done.
  - repeat constructor.
  - reflexivity.
  - by vm_compute.
  - reflexivity.
Defined.

(** The fractional example: the numeral stops at the point. *)
Lemma fraction_is_cut :
  parseInt (units "8080.9") = Int 8080 ∧ validate (units "8080.9") = true.
Proof. by vm_compute. Qed.

(** A hexadecimal numeral is read as one. *)
Lemma hexadecimal_is_read :
  parseInt (units "0x16") = Int 22 ∧ validate (units "0x16") = true.
Proof. by vm_compute. Qed.

(** ** Loading the store *)

(** X26: [loadPortConfigs] never throws and leaves the world
    as it was; without a file it returns the empty object and prints
    nothing; on a file it cannot read or cannot parse it prints the error
    and returns the empty object. *)
Lemma load_fails_soft e :
  (∃ v, result (loadPortConfigs e) = Ret v)
  ∧ final (loadPortConfigs e) = e
  ∧ (node (store e) = None →
     loadPortConfigs e = (Ret (VObj ∅), e, []))
  ∧ (is_Some (node (store e)) → can_read (store e) = false →
     loadPortConfigs e
       = (Ret (VObj ∅), e, [LogError ErrorLoadingPortConfigurations]))
  ∧ (node (store e) = Some NotJson →
     loadPortConfigs e
       = (Ret (VObj ∅), e, [LogError ErrorLoadingPortConfigurations])).
Proof.
  rewrite loadPortConfigs_run. unfold loaded, load_log.
  split_and!; [by eexists|done|..].
  - by intros ->.
  - intros [t ->] ->. by destruct t.
  - by intros ->.
Qed.

(** It returns what the file parses to, whatever that is. *)
Lemma load_returns_the_parsed_value e v :
  node (store e) = Some (Json v) → can_read (store e) = true →
  loadPortConfigs e = (Ret v, e, []).
Proof.
  intros Hn Hr. rewrite loadPortConfigs_run. unfold loaded, load_log.
  by rewrite Hn, Hr.
Qed.

(** C8: the claim has the load yield a mapping for every state of the
    file.  On a file that holds the JSON text [null] the code returns
    [null]: nothing is thrown, nothing is reported, and the value is not
    a mapping. *)
Theorem load_of_null_is_null :
  loadPortConfigs null_store = (Ret VNull, null_store, []).
Proof. reflexivity. Qed.

(** ** Exceptions out of the call *)

Lemma negotiation_never_throws ip user port e x :
  result (negotiation ip user port e) ≠ Throw x.
Proof.
  rewrite negotiation_run; cbn zeta.
  destruct (settle (hd [] (children e)) None) as [[|]|]; [done| |done].
  destruct (read_lines_sound (keyboard e)) as (answers & _ & Hr).
  destruct (read_lines _ _ _) as [[[a|y|] unread] tq]; simpl in Hr; [|done..].
  by destruct (settle (hd [] (tail (children e))) None) as [[|]|].
Qed.

(** The call throws exactly when the file holds [null], and it does so
    before any attempt. *)
Lemma sshIntoServer_throws_iff ip user e x :
  result (sshIntoServer ip user e) = Throw x
  ↔ x = TypeError ∧ loaded (store e) = VNull.
Proof.
  rewrite sshIntoServer_run.
  destruct (loaded (store e)) eqn:Hcfg.
  1: { unfold result; cbn [fst]. split; [by intros [= <-]|by intros [-> _]]. }
  all: pose proof (negotiation_never_throws ip user
                     (first_port (loaded (store e)) ip) e x) as Hno;
       rewrite Hcfg in Hno;
       destruct (negotiation _ _ _ _) as [[r e'] t];
       unfold result in *; cbn [fst] in *;
       split; [done|by intros [_ ?]].
Qed.

(** C9: the claim has the call never throw.  On a store file that holds
    the JSON text [null] the code throws a [TypeError] at the read of the
    host's entry, before any attempt is made and with nothing printed. *)
Theorem null_store_throws :
  sshIntoServer "10.0.0.1" "root" null_store = (Throw TypeError, null_store, []).
Proof. reflexivity. Qed.

(** ** The scenarios of the specification *)

Lemma negotiation_starts ip user port e :
  ∃ t, trace (negotiation ip user port e)
       = attempt_log ip user port (hd [] (children e)) ++ t.
Proof.
  rewrite negotiation_run; cbn zeta.
  destruct (settle (hd [] (children e)) None) as [[|]|];
    [exists []; by rewrite app_nil_r| |exists []; by rewrite app_nil_r].
  destruct (read_lines _ _ _) as [[[a|y|] unread] tq];
    [|by eexists..].
  destruct (settle (hd [] (tail (children e))) None) as [[|]|];
    unfold trace; cbn [snd]; rewrite <- ?app_assoc; by eexists.
Qed.

(** Without an entry for the host the first attempt is on port 22. *)
Lemma default_port_first ip user e fields :
  loaded (store e) = VObj fields → fields !! ip = None →
  hd_error (attempts (trace (sshIntoServer ip user e))) = Some (VNum (Int 22)).
Proof.
  intros Hcfg Hnone. rewrite sshIntoServer_run, Hcfg.
  unfold first_port. rewrite Hnone. cbn [or_else defaultPort].
  destruct (negotiation_starts ip user (VNum (Int 22)) e) as [t Ht].
  destruct (negotiation _ _ _ _) as [[r e'] tr].
  unfold trace in *; cbn [snd] in *. subst tr.
  pose proof (load_log_read (store e)) as (La & _).
  pose proof (attempt_log_read ip user (VNum (Int 22)) (hd [] (children e)))
    as (A1 & _).
  by rewrite !attempts_app, La, A1.
Qed.

(** Scenario 7: no stored port, 22 is refused, the operator enters 2200,
    the session on 2200 ends with status 0: the store maps the host to
    2200. *)
Lemma scenario_port_is_saved :
  result (sshIntoServer "10.0.0.1" "root" second_port_works) = Ret ()
  ∧ attempts (trace (sshIntoServer "10.0.0.1" "root" second_port_works))
    = [VNum (Int 22); VNum (Int 2200)]
  ∧ remembered_port
      (store (final (sshIntoServer "10.0.0.1" "root" second_port_works)))
      "10.0.0.1" = Some (VNum (Int 2200)).
Proof. by vm_compute. Qed.

(** * More of the session workflow *)

(** ** The port of the first attempt *)



(** ** One attempt *)

(** X2: the first event of the child decides the attempt, and the promise
    is resolved at most once: a child whose first event is ['error'] gives
    failure whatever it emits afterwards, a child whose first event is
    ['close'] gives failure for status 255 and success otherwise, and a
    child that emits nothing leaves the attempt pending. *)
Theorem first_event_decides ip user port d c cs kb :
  result (trySSHConnection ip user port (Env d (c :: cs) kb))
    = match head c with
      | Some EvError => Ret false
      | Some (EvClose code) => Ret (negb (strict_eq code 255))
      | None => Pending
      end
  ∧ (length (outcomes (trace (trySSHConnection ip user port
                                (Env d (c :: cs) kb)))) ≤ 1)%nat
  ∧ attempts (trace (trySSHConnection ip user port (Env d (c :: cs) kb)))
    = [port]
  ∧ final (trySSHConnection ip user port (Env d (c :: cs) kb)) = Env d cs kb.
Proof.
  rewrite trySSHConnection_run. observe. cbn [children hd tail store keyboard].
  pose proof (attempt_log_read ip user port c) as (-> & -> & _).
  rewrite settle_head.
  split_and!; try done.
  - by destruct c as [|[|code] more].
  - destruct (head c); simpl; lia.
Qed.

(** ** The negotiation *)

(** X3: when the first attempt succeeds the run is over: one attempt, no
    prompt, nothing read from the operator, nothing written, and the
    store is as it was, also when the port was the remembered one. *)
Theorem first_success_ends_the_run ip user port e c cs code :
  children e = c :: cs →
  head c = Some (EvClose code) →
  code ≠ Some 255%Z →
  negotiation ip user port e
    = (Ret (), Env (store e) cs (keyboard e), attempt_log ip user port c)
  ∧ attempts (trace (negotiation ip user port e)) = [port]
  ∧ outcomes (trace (negotiation ip user port e)) = [true]
  ∧ prompts (trace (negotiation ip user port e)) = 0%nat
  ∧ writes (trace (negotiation ip user port e)) = [].
Proof.
  intros Hcs Hhead Hcode.
  assert (settle c None = Some true) as Hok.
  { rewrite settle_head, Hhead. simpl. f_equal.
    destruct code as [z|]; [|done]. simpl.
    apply negb_true_iff, Z.eqb_neq. by intros ->. }
  assert (negotiation ip user port e
          = (Ret (), Env (store e) cs (keyboard e), attempt_log ip user port c))
    as Hrun.
  { rewrite negotiation_run, Hcs; cbn zeta; cbn [hd tail]. by rewrite Hok. }
  rewrite Hrun. observe.
  pose proof (attempt_log_read ip user port c) as (A1 & O1 & P1 & W1).
  rewrite Hok in O1. by split_and!.
Qed.

Lemma first_success_ends_the_run_witness :
  negotiation "10.0.0.1" "root" (VNum (Int 22)) connects_at_once
  = (Ret (), Env no_store [] [],
     attempt_log "10.0.0.1" "root" (VNum (Int 22)) (closes 0)).
Proof.
  destruct (first_success_ends_the_run "10.0.0.1" "root" (VNum (Int 22))
              connects_at_once (closes 0) [] (Some 0%Z)) as (Hrun & _).
  - reflexivity.
  - reflexivity.
  - done.
  - exact Hrun.
Defined.

Lemma save_writes_once ip port e :
  (length (writes (trace (savePortConfig ip port e))) ≤ 1)%nat.
Proof.
  rewrite savePortConfig_run.
  pose proof (load_log_read (store e)) as (_ & _ & _ & Lw).
  destruct (assigned _ _ _); [destruct (can_write _)|]; unfold trace;
    cbn [snd]; rewrite writes_app, Lw; simpl; lia.
Qed.

Lemma negotiation_bounds ip user port e :
  (length (attempts (trace (negotiation ip user port e))) ≤ 2)%nat
  ∧ (prompts (trace (negotiation ip user port e)) ≤ 1)%nat
  ∧ (length (writes (trace (negotiation ip user port e))) ≤ 1)%nat
  ∧ (∀ p q, attempts (trace (negotiation ip user port e)) = [p; q] →
            valid_port q).
Proof.
  rewrite negotiation_run; cbn zeta.
  set (c1 := hd [] (children e)). set (c2 := hd [] (tl (children e))).
  pose proof (attempt_log_read ip user port c1) as (A1 & _ & P1 & W1).
  assert (∀ r e', let run : outcome () * env * list event :=
                    (r, e', attempt_log ip user port c1) in
            (length (attempts (trace run)) ≤ 2)%nat
            ∧ (prompts (trace run) ≤ 1)%nat
            ∧ (length (writes (trace run)) ≤ 1)%nat
            ∧ (∀ p q, attempts (trace run) = [p; q] → valid_port q)) as Hone.
  { intros r e' run. subst run. observe. rewrite A1, P1, W1.
    split_and!; simpl; try lia. by intros p q [=]. }
  destruct (settle c1 None) as [[|]|]; [apply Hone| |apply Hone].
  destruct (read_lines_sound (keyboard e)) as (answers & Ht & Hr).
  destruct (read_lines _ _ _) as [[r unread] tq]; simpl in Ht, Hr. subst tq.
  pose proof (first_round_read ip user port c1 answers) as (Ab & _ & Pb & Wb).
  cbn zeta in Ab, Pb, Wb.
  set (before := attempt_log ip user port c1 ++ Log ConnectionFailed :: Ask
                   :: (Reject <$> answers)) in *.
  destruct r as [a|x|]; [|done|].
  2: { observe. rewrite Ab, Pb, Wb. split_and!; simpl; try lia.
       by intros p q [=]. }
  apply validate_spec in Hr as (n & Hn & Hrange). rewrite Hn.
  pose proof (attempt_log_read ip user (VNum (Int n)) c2) as (A2 & _ & P2 & W2).
  set (e2 := Env (store e) (tail (tail (children e))) unread).
  pose proof (save_trace_read ip (VNum (Int n)) e2) as (As & _ & Ps).
  pose proof (save_writes_once ip (VNum (Int n)) e2) as Hws.
  assert (valid_port (VNum (Int n))) as Hvalid by (by exists n).
  unfold trace in As, Ps, Hws.
  destruct (settle c2 None) as [[|]|]; observe.
  - rewrite !attempts_app, !prompts_app, !writes_app, Ab, Pb, Wb, A2, P2, W2,
      As, Ps.
    split_and!; simpl; try lia.
    + unfold prompts; simpl; lia.
    + rewrite ?app_nil_r, ?length_app; simpl; lia.
    + by intros p q [= _ <-].
  - rewrite !attempts_app, !prompts_app, !writes_app, Ab, Pb, Wb, A2, P2, W2.
    split_and!; simpl; try lia. by intros p q [= _ <-].
  - rewrite !attempts_app, !prompts_app, !writes_app, Ab, Pb, Wb, A2, P2, W2.
    split_and!; simpl; try lia. by intros p q [= _ <-].
Qed.

(** X4: no run of the workflow makes more than two attempts, shows the
    prompt more than once or writes the store more than once; and a second
    attempt is only ever made on an integer strictly between 0 and 65536. *)
Theorem at_most_two_attempts ip user e :
  (length (attempts (trace (sshIntoServer ip user e))) ≤ 2)%nat
  ∧ (prompts (trace (sshIntoServer ip user e)) ≤ 1)%nat
  ∧ (length (writes (trace (sshIntoServer ip user e))) ≤ 1)%nat
  ∧ (∀ p q, attempts (trace (sshIntoServer ip user e)) = [p; q] →
            valid_port q).
Proof.
  pose proof (load_log_read (store e)) as (La & _ & Lp & Lw).
  rewrite sshIntoServer_run.
  destruct (loaded (store e)) eqn:Hcfg;
    [observe; rewrite La, Lp, Lw; split_and!; simpl; try lia; done|..].
  all: pose proof (negotiation_bounds ip user (first_port (loaded (store e)) ip) e)
         as (Ha & Hp & Hw & Hv); rewrite Hcfg in *.
  all: destruct (negotiation _ _ _ _) as [[r e'] t].
  all: unfold trace in *; cbn [snd] in *.
  all: rewrite attempts_app, prompts_app, writes_app, La, Lp, Lw.
  all: split_and!; simpl; try lia; done.
Qed.

(** X5: the line that says the port has been saved is printed whenever
    the second attempt succeeds, also when the save has failed: on a
    store that cannot be written the run ends with the error line of
    [savePortConfig] followed by that line, and the store is as it was. *)
Theorem saved_line_without_a_save ip user port e c1 c2 cs bad line rest :
  children e = c1 :: c2 :: cs →
  fails c1 →
  settle c2 None = Some true →
  keyboard e = bad ++ line :: rest →
  Forall (λ l, accepted l = false) bad →
  accepted line = true →
  can_write (store e) = false →
  let port2 := VNum (parseInt (answer_of defaultPort_string line)) in
  result (negotiation ip user port e) = Ret ()
  ∧ (∃ before,
       trace (negotiation ip user port e)
         = before ++ [LogError ErrorSavingPortConfiguration;
                      Log (PortSaved port2 ip)])
  ∧ writes (trace (negotiation ip user port e)) = []
  ∧ store (final (negotiation ip user port e)) = store e.
Proof.
  intros Hcs H1 H2 Hkb Hbad Hline Hw port2.
  pose proof (negotiation_retried ip user port e bad line rest) as Hrun.
  rewrite Hcs in Hrun; cbn [hd tail] in Hrun.
  specialize (Hrun H1 Hkb Hbad Hline). cbn zeta in Hrun. rewrite H2 in Hrun.
  fold port2 in Hrun.
  set (e2 := Env (store e) cs rest) in *.
  assert (savePortConfig ip port2 e2
          = (Ret (), e2,
             load_log (store e) ++ [LogError ErrorSavingPortConfiguration]))
    as Hsave.
  { rewrite savePortConfig_run. change (store e2) with (store e). rewrite Hw.
    by destruct (assigned _ _ _). }
  rewrite Hsave in Hrun. rewrite Hrun. observe.
  pose proof (first_round_read ip user port c1
                (answer_of defaultPort_string <$> bad)) as (_ & _ & _ & Wb).
  pose proof (attempt_log_read ip user port2 c2) as (_ & _ & _ & W2).
  pose proof (load_log_read (store e)) as (_ & _ & _ & Lw).
  cbn zeta in Wb.
  set (before := attempt_log ip user port c1 ++ Log ConnectionFailed :: Ask
                   :: (Reject <$> (answer_of defaultPort_string <$> bad))) in *.
  split_and!; [done| |by rewrite !writes_app, Wb, W2, Lw|done].
  exists ((before ++ attempt_log ip user port2 c2) ++ load_log (store e)).
  by rewrite <- !app_assoc.
Qed.

Lemma saved_line_without_a_save_witness :
  ∃ before,
    trace (negotiation "10.0.0.1" "root" (VNum (Int 22))
             (world (Disk None true false) [closes 255; closes 0] ["2200"]))
      = before ++ [LogError ErrorSavingPortConfiguration;
                   Log (PortSaved (VNum (Int 2200)) "10.0.0.1")].
Proof.
  destruct (saved_line_without_a_save "10.0.0.1" "root" (VNum (Int 22))
              (world (Disk None true false) [closes 255; closes 0] ["2200"])
              (closes 255) (closes 0) [] [] (units "2200") [])
    as (_ & Hend & _).
  - reflexivity.
  - reflexivity.
  - reflexivity.
  - reflexivity.
  - constructor.
  - reflexivity.
  - reflexivity.
  - exact Hend.
Defined.

(** X6: while the first attempt has failed and the operator gives no line
    that the validator takes, the workflow stays at the prompt: every
    line is refused, no second attempt is made and nothing is written. *)
Theorem no_valid_port_no_second_attempt ip user port e c1 cs :
  children e = c1 :: cs →
  fails c1 →
  Forall (λ l, accepted l = false) (keyboard e) →
  result (negotiation ip user port e) = Pending
  ∧ attempts (trace (negotiation ip user port e)) = [port]
  ∧ prompts (trace (negotiation ip user port e)) = 1%nat
  ∧ writes (trace (negotiation ip user port e)) = []
  ∧ children (final (negotiation ip user port e)) = cs
  ∧ store (final (negotiation ip user port e)) = store e.
Proof.
  intros Hcs H1 Hbad.
  rewrite negotiation_run, Hcs; cbn zeta; cbn [hd tail]. rewrite H1.
  rewrite read_lines_pending by done. observe.
  pose proof (first_round_read ip user port c1
                (answer_of defaultPort_string <$> keyboard e))
    as (Ab & _ & Pb & Wb).
  by split_and!.
Qed.

Lemma no_valid_port_no_second_attempt_witness :
  result (negotiation "10.0.0.1" "root" (VNum (Int 22))
            (world no_store [closes 255; closes 0] ["0"; "abc"; "70000"]))
  = Pending.
Proof.
  destruct (no_valid_port_no_second_attempt "10.0.0.1" "root" (VNum (Int 22))
              (world no_store [closes 255; closes 0] ["0"; "abc"; "70000"])
              (closes 255) [closes 0]) as (Hr & _).
  - reflexivity.
  - reflexivity.
  - repeat constructor.
  - exact Hr.
Defined.

(** ** The prompt *)

(** X7: whatever the operator types, the prompt never throws, touches
    neither the store nor the children, and when it returns it returns an
    integer strictly between 0 and 65536, never NaN and never the text. *)
Theorem prompt_returns_a_valid_port e :
  (∀ x, result (promptForPort e) ≠ Throw x)
  ∧ store (final (promptForPort e)) = store e
  ∧ children (final (promptForPort e)) = children e
  ∧ (∀ v, result (promptForPort e) = Ret v → valid_port v).
Proof.
  rewrite promptForPort_run.
  destruct (read_lines_sound (keyboard e)) as (answers & _ & Hr).
  destruct (read_lines _ _ _) as [[[a|x|] unread] t]; simpl in Hr; [|done|];
    observe; split_and!; try done.
  intros v [= <-]. apply validate_spec in Hr as (n & -> & Hn). by exists n.
Qed.

(** X8: white space before the digits does not count: the validator and
    [parseInt] give for an input what they give for it without its
    leading white space. *)
Theorem leading_space_is_ignored (ws s : jsstring) :
  Forall (λ c, is_space c = true) ws →
  parseInt (ws ++ s) = parseInt s ∧ validate (ws ++ s) = validate s.
Proof.
  intros Hws.
  assert (trim_start (ws ++ s) = trim_start s) as Htrim.
  { induction Hws as [|c ws Hc _ IH]; [done|]. simpl. by rewrite Hc. }
  unfold validate, parseInt. by rewrite Htrim.
Qed.

Lemma leading_space_is_ignored_witness :
  parseInt (units "  2222") = parseInt (units "2222")
  ∧ validate (units "  2222") = validate (units "2222").
Proof.
  apply (leading_space_is_ignored (units "  ") (units "2222")).
  repeat constructor.
Defined.

(** ** The store *)

Lemma save_on_usable ip port e fields :
  can_read (store e) = true →
  can_write (store e) = true →
  loaded (store e) = VObj fields →
  savePortConfig ip port e
    = (Ret (),
       Env (Disk (Some (Json (VObj (<[ip := port]> fields)))) true true)
           (children e) (keyboard e),
       load_log (store e) ++ [WriteFile (Json (VObj (<[ip := port]> fields)))]).
Proof.
  intros Hr Hw Hcfg. rewrite savePortConfig_run, Hcfg, Hw, Hr. done.
Qed.

(** X9: on a store that can be read and written and that loads as an
    object, saves compose as updates of a map: a second save for the same
    host replaces the first, and saves for two different hosts give the
    same store in either order. *)
Theorem saves_compose ip1 ip2 p q e fields :
  can_read (store e) = true →
  can_write (store e) = true →
  result (loadPortConfigs e) = Ret (VObj fields) →
  store (final (savePortConfig ip1 q (final (savePortConfig ip1 p e))))
    = store (final (savePortConfig ip1 q e))
  ∧ (ip1 ≠ ip2 →
     store (final (savePortConfig ip2 q (final (savePortConfig ip1 p e))))
       = store (final (savePortConfig ip1 p (final (savePortConfig ip2 q e))))).
Proof.
  intros Hr Hw. rewrite loadPortConfigs_run. unfold result; cbn [fst].
  intros [= Hcfg].
  assert (∀ ip port fs e0,
            can_read (store e0) = true → can_write (store e0) = true →
            loaded (store e0) = VObj fs →
            store (final (savePortConfig ip port e0))
              = Disk (Some (Json (VObj (<[ip := port]> fs)))) true true
            ∧ can_read (store (final (savePortConfig ip port e0))) = true
            ∧ can_write (store (final (savePortConfig ip port e0))) = true
            ∧ loaded (store (final (savePortConfig ip port e0)))
                = VObj (<[ip := port]> fs)) as Hstep.
  { intros ip port fs e0 Hr0 Hw0 Hc0.
    by rewrite (save_on_usable ip port e0 fs). }
  destruct (Hstep ip1 p fields e Hr Hw Hcfg) as (_ & Hr1 & Hw1 & Hc1).
  destruct (Hstep ip2 q fields e Hr Hw Hcfg) as (_ & Hr2 & Hw2 & Hc2).
  split.
  - destruct (Hstep ip1 q _ _ Hr1 Hw1 Hc1) as (-> & _).
    destruct (Hstep ip1 q fields e Hr Hw Hcfg) as (-> & _).
    by rewrite insert_insert_eq.
  - intros Hne.
    destruct (Hstep ip2 q _ _ Hr1 Hw1 Hc1) as (-> & _).
    destruct (Hstep ip1 p _ _ Hr2 Hw2 Hc2) as (-> & _).
    by rewrite insert_insert_ne.
Qed.

Lemma saves_compose_witness :
  store (final (savePortConfig "10.0.0.1" (VNum (Int 2200))
                  (final (savePortConfig "10.0.0.1" (VNum (Int 2022))
                            other_host_stored))))
  = store (final (savePortConfig "10.0.0.1" (VNum (Int 2200)) other_host_stored)).
Proof.
  destruct (saves_compose "10.0.0.1" "10.0.0.2" (VNum (Int 2022))
              (VNum (Int 2200)) other_host_stored
              {["10.0.0.2" := VNum (Int 2222)]}) as (Hlast & _).
  - reflexivity.
  - reflexivity.
  - reflexivity.
  - exact Hlast.
Defined.

(** X10: [savePortConfig] never throws and never touches anything but
    the store file; it writes at most once, and when it does not write it
    prints its error line and leaves the file as it was. *)
Theorem save_fails_soft ip port e :
  result (savePortConfig ip port e) = Ret ()
  ∧ children (final (savePortConfig ip port e)) = children e
  ∧ keyboard (final (savePortConfig ip port e)) = keyboard e
  ∧ (length (writes (trace (savePortConfig ip port e))) ≤ 1)%nat
  ∧ (∀ t, writes (trace (savePortConfig ip port e)) = [t] →
          node (store (final (savePortConfig ip port e))) = Some t)
  ∧ (writes (trace (savePortConfig ip port e)) = [] →
     store (final (savePortConfig ip port e)) = store e
     ∧ LogError ErrorSavingPortConfiguration ∈ trace (savePortConfig ip port e)).
Proof.
  pose proof (save_writes_once ip port e) as Hws.
  rewrite savePortConfig_run in *.
  pose proof (load_log_read (store e)) as (_ & _ & _ & Lw).
  destruct (assigned _ _ _) as [cfg|]; [destruct (can_write (store e))|];
    unfold result, final, trace in *; cbn [fst snd] in *;
    rewrite writes_app, Lw; cbn [app writes omap];
    split_and!; try done; try (simpl; lia); try (by intros t [= <-]);
    intros _; (split; [done|]); apply elem_of_app; right; set_solver.
Qed.

(** * The launcher *)

Lemma launcher_bind_run {A B} (m : L A) (f : A → L B) w :
  (m ≫= f) w =
    match m w with
    | (Ret a, w1, t1) => let '(r, w2, t2) := f a w1 in (r, w2, t1 ++ t2)
    | (Throw x, w1, t1) => (Throw x, w1, t1)
    | (Pending, w1, t1) => (Pending, w1, t1)
    end.
Proof. reflexivity. Qed.

(** Looks at the three components of a run of the launcher. *)
Ltac look := unfold outcome_of, machine_of, activities; cbn [fst snd].

Lemma read_on_terminal v key w :
  on_terminal (get_prop v key) w
  = (match v with VNull => Throw TypeError | _ => Ret (member key v) end, w, []).
Proof. by destruct w, v. Qed.

(** ** The agent *)

Lemma setupSSHAgent_run w :
  setupSSHAgent w =
    let m := λ cmds,
      Machine (terminal w) cmds (vultr_api w) (binarylane_api w) (picker w) in
    match commands w with
    | [] => (Pending, w, [Exec SshAddList])
    | true :: [] => (Pending, m [], [Exec SshAddList; Exec SshAddList])
    | true :: true :: rest =>
        (Ret (), m rest, [Exec SshAddList; Exec SshAddList])
    | true :: false :: [] =>
        (Pending, m [],
         [Exec SshAddList; Exec SshAddList; Say AddingSshKey; Exec SshAdd])
    | true :: false :: true :: rest =>
        (Ret (), m rest,
         [Exec SshAddList; Exec SshAddList; Say AddingSshKey; Exec SshAdd])
    | true :: false :: false :: rest =>
        (Ret (), m rest,
         [Exec SshAddList; Exec SshAddList; Say AddingSshKey; Exec SshAdd;
          SayError ErrorSettingUpSshAgent])
    | false :: [] =>
        (Pending, m [], [Exec SshAddList; Say StartingSshAgent; Exec StartAgent])
    | false :: false :: rest =>
        (Ret (), m rest,
         [Exec SshAddList; Say StartingSshAgent; Exec StartAgent;
          SayError ErrorSettingUpSshAgent])
    | false :: true :: [] =>
        (Pending, m [],
         [Exec SshAddList; Say StartingSshAgent; Exec StartAgent;
          Exec SshAddList])
    | false :: true :: true :: rest =>
        (Ret (), m rest,
         [Exec SshAddList; Say StartingSshAgent; Exec StartAgent;
          Exec SshAddList])
    | false :: true :: false :: [] =>
        (Pending, m [],
         [Exec SshAddList; Say StartingSshAgent; Exec StartAgent;
          Exec SshAddList; Say AddingSshKey; Exec SshAdd])
    | false :: true :: false :: true :: rest =>
        (Ret (), m rest,
         [Exec SshAddList; Say StartingSshAgent; Exec StartAgent;
          Exec SshAddList; Say AddingSshKey; Exec SshAdd])
    | false :: true :: false :: false :: rest =>
        (Ret (), m rest,
         [Exec SshAddList; Say StartingSshAgent; Exec StartAgent;
          Exec SshAddList; Say AddingSshKey; Exec SshAdd;
          SayError ErrorSettingUpSshAgent])
    end.
Proof.
  destruct w as [e cmds v b p]. cbn [commands].
  destruct cmds as [|[] [|[] [|[] [|[] rest]]]]; reflexivity.
Qed.

(** X11: setting up the agent never throws and touches nothing but the
    commands it runs; it starts with [ssh-add -l], runs at most four
    commands, at least two when it returns, and when both checks pass it
    runs the two checks and prints nothing. *)
Theorem agent_setup_never_throws w :
  (∀ x, outcome_of (setupSSHAgent w) ≠ Throw x)
  ∧ terminal (machine_of (setupSSHAgent w)) = terminal w
  ∧ vultr_api (machine_of (setupSSHAgent w)) = vultr_api w
  ∧ binarylane_api (machine_of (setupSSHAgent w)) = binarylane_api w
  ∧ picker (machine_of (setupSSHAgent w)) = picker w
  ∧ hd_error (executed (activities (setupSSHAgent w))) = Some SshAddList
  ∧ (length (executed (activities (setupSSHAgent w))) ≤ 4)%nat
  ∧ (outcome_of (setupSSHAgent w) = Ret () →
     (2 ≤ length (executed (activities (setupSSHAgent w))))%nat)
  ∧ (∀ rest, commands w = true :: true :: rest →
     activities (setupSSHAgent w) = [Exec SshAddList; Exec SshAddList]).
Proof.
  rewrite setupSSHAgent_run. cbn zeta.
  destruct w as [e cmds v b p]. cbn [commands terminal vultr_api binarylane_api picker].
  destruct cmds as [|[] [|[] [|[] [|[] rest]]]]; look;
    split_and!; try done; simpl; try lia.
Qed.

(** X12: when there is no agent and none can be started, the set-up
    stops there: it reports the error, does not check again and does not
    run [ssh-add]; it returns all the same. *)
Theorem agent_failure_skips_the_key w rest :
  commands w = false :: false :: rest →
  setupSSHAgent w
  = (Ret (),
     Machine (terminal w) rest (vultr_api w) (binarylane_api w) (picker w),
     [Exec SshAddList; Say StartingSshAgent; Exec StartAgent;
      SayError ErrorSettingUpSshAgent]).
Proof. intros Hc. by rewrite setupSSHAgent_run, Hc. Qed.

Lemma agent_failure_skips_the_key_witness :
  setupSSHAgent nothing_works
  = (Ret (),
     Machine (world no_store [] []) [true; true] Refused Refused None,
     [Exec SshAddList; Say StartingSshAgent; Exec StartAgent;
      SayError ErrorSettingUpSshAgent]).
Proof. exact (agent_failure_skips_the_key nothing_works [true; true] eq_refl). Defined.

(** X13: [ssh-add] is run exactly when the second [ssh-add -l] is
    reached and fails, that is when the agent was there or could be
    started and lists no key; and the set-up reports an error exactly when
    starting the agent or adding the key fails. *)
Theorem key_is_added_after_a_failed_check w :
  (SshAdd ∈ executed (activities (setupSSHAgent w))
   ↔ ∃ rest, commands w = true :: false :: rest
             ∨ commands w = false :: true :: false :: rest)
  ∧ (SayError ErrorSettingUpSshAgent ∈ activities (setupSSHAgent w)
     ↔ ∃ rest, commands w = false :: false :: rest
               ∨ commands w = true :: false :: false :: rest
               ∨ commands w = false :: true :: false :: false :: rest).
Proof.
  rewrite setupSSHAgent_run. cbn zeta.
  destruct (commands w) as [|[] [|[] [|[] [|[] rest]]]]; look; simpl;
    rewrite ?elem_of_cons; rewrite ?elem_of_nil; split.
  all: split;
    [ intros Hin; first [by eexists; eauto | exfalso; intuition discriminate]
    | intros (r & Hr); intuition (try discriminate; auto 10) ].
Qed.

(** ** The two fetches *)

Lemma vultr_server_run `{Platform} instance w :
  vultr_server instance w
  = (match vultr_record instance with
     | Some s => Ret s
     | None => Throw TypeError
     end, w, []).
Proof.
  unfold vultr_server. rewrite launcher_bind_run, read_on_terminal.
  destruct instance; [done|..];
    do 3 (rewrite launcher_bind_run, read_on_terminal); reflexivity.
Qed.

Lemma binarylane_server_run `{Platform} srv w :
  binarylane_server srv w
  = (match binarylane_record srv with
     | Some s => Ret s
     | None => Throw TypeError
     end, w, []).
Proof.
  unfold binarylane_server. rewrite launcher_bind_run, read_on_terminal.
  destruct srv; [done|..];
    do 2 (rewrite launcher_bind_run, read_on_terminal); reflexivity.
Qed.

Lemma each_run (f : value → L server) (record : value → option server) items w :
  (∀ v w', f v w' = (match record v with
                     | Some s => Ret s
                     | None => Throw TypeError
                     end, w', [])) →
  each f items w
  = (match mapM record items with
     | Some servers => Ret servers
     | None => Throw TypeError
     end, w, []).
Proof.
  intros Hf. induction items as [|v items IH]; [done|].
  cbn [each]. rewrite launcher_bind_run, Hf. cbn [mapM].
  destruct (record v) as [s|]; [|done]. cbn.
  rewrite launcher_bind_run, IH.
  by destruct (mapM record items).
Qed.

Lemma fetch_run (f : value → L server) (record : value → option server)
    (key : string) (p : provider) w :
  (∀ v w', f v w' = (match record v with
                     | Some s => Ret s
                     | None => Throw TypeError
                     end, w', [])) →
  guarded
    (data ← axios_get p;
     items ← on_terminal (get_prop data key);
     array_map f (or_else items (VArr [])))
    (λ error, say_error (ErrorFetching p);; mret []) w
  = ((inventory record key p
        match p with Vultr => vultr_api w | BinaryLane => binarylane_api w end).1,
     w,
     (inventory record key p
        match p with Vultr => vultr_api w | BinaryLane => binarylane_api w end).2).
Proof.
  intros Hf. unfold guarded, inventory, axios_get.
  rewrite launcher_bind_run.
  destruct (match p with Vultr => vultr_api w | BinaryLane => binarylane_api w end)
    as [|data|]; [done| |done].
  rewrite launcher_bind_run, read_on_terminal. unfold listed.
  destruct data as [|b|x|s|l|fields]; [done|done..|]. cbn [member].
  unfold array_map.
  destruct (or_else (fields !! key) (VArr [])) as [| | | |items|]; try done.
  rewrite (each_run f record items w Hf).
  by destruct (mapM record items).
Qed.

Lemma getVultrServers_run `{Platform} w :
  getVultrServers w
  = ((inventory vultr_record "instances" Vultr (vultr_api w)).1, w,
     (inventory vultr_record "instances" Vultr (vultr_api w)).2).
Proof. apply (fetch_run vultr_server vultr_record "instances" Vultr w), @vultr_server_run. Qed.

Lemma getBinarylaneServers_run `{Platform} w :
  getBinarylaneServers w
  = ((inventory binarylane_record "servers" BinaryLane (binarylane_api w)).1, w,
     (inventory binarylane_record "servers" BinaryLane (binarylane_api w)).2).
Proof.
  apply (fetch_run binarylane_server binarylane_record "servers" BinaryLane w),
    @binarylane_server_run.
Qed.

Lemma inventory_read record key p r :
  (∀ x, (inventory record key p r).1 ≠ Throw x)
  ∧ executed (inventory record key p r).2 = []
  ∧ offers (inventory record key p r).2 = []
  ∧ session_events (inventory record key p r).2 = []
  ∧ (∀ n, Say n ∉ (inventory record key p r).2).
Proof.
  unfold inventory.
  destruct r as [|data|]; [| destruct (listed record key data) |];
    cbn [fst snd]; split_and!; try done; intros n Hin;
    repeat (apply elem_of_cons in Hin as [Hin|Hin]; [done|]);
    by apply elem_of_nil in Hin.
Qed.

(** X14: neither fetch ever throws or changes the machine; a request that
    fails gives the empty list and the provider's error line, and an
    answer without the list, or with a falsy one, gives the empty list and
    no error line. *)
Theorem fetches_fail_soft `{Platform} w :
  (∀ x, outcome_of (getVultrServers w) ≠ Throw x)
  ∧ (∀ x, outcome_of (getBinarylaneServers w) ≠ Throw x)
  ∧ machine_of (getVultrServers w) = w
  ∧ machine_of (getBinarylaneServers w) = w
  ∧ (vultr_api w = Refused →
     getVultrServers w
     = (Ret [], w, [Request Vultr; SayError (ErrorFetching Vultr)]))
  ∧ (binarylane_api w = Refused →
     getBinarylaneServers w
     = (Ret [], w, [Request BinaryLane; SayError (ErrorFetching BinaryLane)]))
  ∧ (∀ fields, vultr_api w = Answered (VObj fields) →
       truthy_opt (fields !! "instances") = false →
       getVultrServers w = (Ret [], w, [Request Vultr]))
  ∧ (∀ fields, binarylane_api w = Answered (VObj fields) →
       truthy_opt (fields !! "servers") = false →
       getBinarylaneServers w = (Ret [], w, [Request BinaryLane])).
Proof.
  rewrite getVultrServers_run, getBinarylaneServers_run. look.
  pose proof (inventory_read vultr_record "instances" Vultr (vultr_api w))
    as (Hv & _).
  pose proof (inventory_read binarylane_record "servers" BinaryLane
                (binarylane_api w)) as (Hb & _).
  split_and!; try done.
  - by intros ->.
  - by intros ->.
  - intros fields -> Hfalsy. unfold inventory, listed, or_else; cbn [member].
    destruct (fields !! "instances") as [v|]; [|done].
    simpl in Hfalsy. by rewrite Hfalsy.
  - intros fields -> Hfalsy. unfold inventory, listed, or_else; cbn [member].
    destruct (fields !! "servers") as [v|]; [|done].
    simpl in Hfalsy. by rewrite Hfalsy.
Qed.

(** X15: one [null] in the list of instances, or a body that is [null],
    or a list that is no array, and the whole Vultr inventory is lost: the
    fetch prints its error line and returns the empty list, also for the
    instances that were well formed. *)
Theorem one_bad_entry_voids_the_inventory `{Platform} w data :
  vultr_api w = Answered data →
  data = VNull
  ∨ (∃ fields items,
       data = VObj fields ∧ fields !! "instances" = Some (VArr items)
       ∧ VNull ∈ items)
  ∨ (∃ fields v,
       data = VObj fields ∧ fields !! "instances" = Some v
       ∧ truthy v = true ∧ ∀ items, v ≠ VArr items) →
  getVultrServers w
  = (Ret [], w, [Request Vultr; SayError (ErrorFetching Vultr)]).
Proof.
  intros Hapi Hbad. rewrite getVultrServers_run, Hapi. unfold inventory.
  assert (listed vultr_record "instances" data = None) as ->; [|done].
  destruct Hbad as [->|[(fields & items & -> & Hitems & Hnull)
                       |(fields & v & -> & Hv & Htruthy & Hnot)]]; [done|..].
  - unfold listed; cbn [member]. rewrite Hitems. cbn [or_else truthy].
    apply eq_None_not_Some. intros [servers Hsome].
    apply mapM_Some in Hsome.
    apply list_elem_of_lookup in Hnull as [i Hi].
    destruct (Forall2_lookup_l _ _ _ _ _ Hsome Hi) as (s & _ & Hs). done.
  - unfold listed; cbn [member]. rewrite Hv. cbn [or_else]. rewrite Htruthy.
    destruct v; try done. by destruct (Hnot items).
Qed.

Lemma one_bad_entry_voids_the_inventory_witness :
  getVultrServers null_instance
  = (Ret [], null_instance, [Request Vultr; SayError (ErrorFetching Vultr)]).
Proof.
  apply (one_bad_entry_voids_the_inventory null_instance
           (VObj {[ "instances" :=
              VArr [VObj {["main_ip" := jstr "10.0.0.1"]}; VNull] ]}));
    [reflexivity|].
  right; left. eexists _, _. split_and!; [reflexivity|reflexivity|].
  apply elem_of_cons; right. apply elem_of_cons; by left.
Defined.

(** X16: an answer whose list holds no [null] gives one record per
    instance, in the order of the list and with no error line.  Every
    record is a Vultr record, its address is the instance's [main_ip], its
    name is the label when that is truthy and is truthy in any case, and
    its tags are never missing. *)
Theorem vultr_records `{Platform} w fields items :
  vultr_api w = Answered (VObj fields) →
  fields !! "instances" = Some (VArr items) →
  VNull ∉ items →
  ∃ servers,
    getVultrServers w = (Ret servers, w, [Request Vultr])
    ∧ Forall2
        (λ instance s,
           server_provider s = Vultr
           ∧ server_id s = member "id" instance
           ∧ server_ip s = member "main_ip" instance
           ∧ truthy (server_name s) = true
           ∧ (truthy_opt (member "label" instance) = true →
              Some (server_name s) = member "label" instance)
           ∧ ∃ t, server_tags s = Some t ∧ truthy t = true)
        items servers.
Proof.
  intros Hapi Hitems Hnull.
  rewrite getVultrServers_run, Hapi. unfold inventory, listed; cbn [member].
  rewrite Hitems. cbn [or_else truthy].
  assert (∃ servers,
            mapM vultr_record items = Some servers
            ∧ Forall2 (λ instance s, vultr_record instance = Some s) items servers)
    as (servers & Hmap & Hall).
  { assert (is_Some (mapM vultr_record items)) as [servers Hs].
    { apply mapM_is_Some. apply Forall_forall. intros v Hv.
      destruct v; [by destruct Hnull|by eexists..]. }
    exists servers. split; [done|]. by apply mapM_Some. }
  rewrite Hmap. exists servers. split; [done|].
  eapply Forall2_impl; [exact Hall|].
  intros instance s Hrec. unfold vultr_record in Hrec.
  assert (∀ (label : option value) (fallback : jsstring),
            truthy (or_else label (VStr (units "Vultr-" ++ fallback))) = true
            ∧ (truthy_opt label = true →
               Some (or_else label (VStr (units "Vultr-" ++ fallback))) = label))
    as Hname.
  { intros [v|] fallback; simpl; [|done].
    destruct (truthy v) eqn:Hv; [done|]. by split. }
  assert (∀ tags, truthy (or_else tags (VArr [])) = true) as Htags.
  { intros [v|]; simpl; [|done]. by destruct (truthy v) eqn:Hv. }
  assert (s = Server Vultr (member "id" instance)
                (or_else (member "label" instance)
                   (VStr (units "Vultr-" ++ ToString (member "id" instance))))
                (member "main_ip" instance)
                (Some (or_else (member "tags" instance) (VArr [])))) as ->.
  { destruct instance; by simplify_eq. }
  cbn [server_provider server_id server_ip server_name server_tags].
  split_and!; [done|done|done|apply Hname|apply Hname|].
  eexists; split; [done|apply Htags].
Qed.

Lemma vultr_records_witness :
  ∃ servers,
    getVultrServers picks_db = (Ret servers, picks_db, [Request Vultr])
    ∧ length servers = 2%nat.
Proof.
  destruct (vultr_records picks_db
              {[ "instances" :=
                 VArr [
                   VObj (<["id" := jstr "a1"]> (<["label" := jstr "Web"]>
                         (<["main_ip" := jstr "10.0.0.1"]>
                          {["tags" := VArr [jstr "prod"; jstr "eu"]]})));
                   VObj (<["id" := jstr "b2"]> {["main_ip" := jstr "10.0.0.3"]}) ] ]}
              [VObj (<["id" := jstr "a1"]> (<["label" := jstr "Web"]>
                     (<["main_ip" := jstr "10.0.0.1"]>
                      {["tags" := VArr [jstr "prod"; jstr "eu"]]})));
               VObj (<["id" := jstr "b2"]> {["main_ip" := jstr "10.0.0.3"]})])
    as (servers & Hrun & Hall).
  - reflexivity.
  - reflexivity.
  - intros Hin. repeat (apply elem_of_cons in Hin as [Hin|Hin]; [done|]).
    by apply elem_of_nil in Hin.
  - exists servers. split; [exact Hrun|].
    by rewrite <- (Forall2_length _ _ _ Hall).
Defined.

(** X17: a BinaryLane record has no tags and always has an address: the
    [ip_address] of the first entry of [networks.v4] when the server has
    one that is truthy, and [null] otherwise, in particular for a server
    without networks, so that [main] drops it. *)
Theorem binarylane_records `{Platform} w fields items :
  binarylane_api w = Answered (VObj fields) →
  fields !! "servers" = Some (VArr items) →
  VNull ∉ items →
  ∃ servers,
    getBinarylaneServers w = (Ret servers, w, [Request BinaryLane])
    ∧ Forall2
        (λ srv s,
           server_provider s = BinaryLane
           ∧ server_tags s = None
           ∧ truthy (server_name s) = true
           ∧ (∀ nets first more address,
                member "networks" srv = Some (VObj nets) →
                nets !! "v4" = Some (VArr (VObj first :: more)) →
                first !! "ip_address" = Some address →
                truthy address = true →
                server_ip s = Some address)
           ∧ (member "networks" srv = None → server_ip s = Some VNull)
           ∧ (server_ip s = Some VNull ∨ truthy_opt (server_ip s) = true))
        items servers
    ∧ length (with_ip servers)
      = length (List.filter (λ srv, truthy_opt (v4_address srv)) items).
Proof.
  intros Hapi Hitems Hnull.
  rewrite getBinarylaneServers_run, Hapi. unfold inventory, listed; cbn [member].
  rewrite Hitems. cbn [or_else truthy].
  assert (∃ servers,
            mapM binarylane_record items = Some servers
            ∧ Forall2 (λ srv s, binarylane_record srv = Some s) items servers)
    as (servers & Hmap & Hall).
  { assert (is_Some (mapM binarylane_record items)) as [servers Hs].
    { apply mapM_is_Some. apply Forall_forall. intros v Hv.
      destruct v; [by destruct Hnull|by eexists..]. }
    exists servers. split; [done|]. by apply mapM_Some. }
  rewrite Hmap. exists servers. split; [done|].
  assert (∀ (name : option value) (fallback : jsstring),
            truthy (or_else name (VStr (units "BL-Server-" ++ fallback))) = true)
    as Hname.
  { intros [v|] fallback; simpl; [|done]. by destruct (truthy v) eqn:Hv. }
  assert (∀ address,
            or_else address VNull = VNull
            ∨ truthy (or_else address VNull) = true) as Hip.
  { intros [v|]; simpl; [|by left]. destruct (truthy v) eqn:Hv; auto. }
  split.
  - eapply Forall2_impl; [exact Hall|].
    intros srv s Hrec. unfold binarylane_record in Hrec.
    assert (srv ≠ VNull) as Hsrv by (by intros ->).
    assert (s = Server BinaryLane (member "id" srv)
                  (or_else (member "name" srv)
                     (VStr (units "BL-Server-" ++ ToString (member "id" srv))))
                  (Some (or_else (v4_address srv) VNull)) None) as ->.
    { destruct srv; by simplify_eq. }
    cbn [server_provider server_tags server_name server_ip].
    split_and!; [done|done|apply Hname|..].
    + intros nets first more address Hnets Hv4 Haddr Htruthy.
      unfold v4_address. rewrite Hnets. cbn [optional member]. rewrite Hv4.
      cbn [optional first_item head member]. rewrite Haddr. simpl.
      by rewrite Htruthy.
    + intros Hnone. unfold v4_address. by rewrite Hnone.
    + destruct (Hip (v4_address srv)) as [->|Hyes]; [by left|].
      right. exact Hyes.
  - clear Hmap Hnull Hitems. induction Hall as [|srv s items servers Hrec _ IH];
      [done|].
    assert (truthy_opt (server_ip s) = truthy_opt (v4_address srv)) as Hsame.
    { unfold binarylane_record in Hrec.
      assert (server_ip s = Some (or_else (v4_address srv) VNull)) as ->.
      { destruct srv; by simplify_eq. }
      destruct (v4_address srv) as [v|]; simpl; [|done].
      by destruct (truthy v) eqn:Hv. }
    unfold with_ip in *. cbn [List.filter]. rewrite Hsame.
    destruct (truthy_opt (v4_address srv)); simpl; by rewrite IH.
Qed.

Lemma binarylane_records_witness :
  ∃ servers,
    getBinarylaneServers picks_db = (Ret servers, picks_db, [Request BinaryLane])
    ∧ length (with_ip servers) = 1%nat.
Proof.
  destruct (binarylane_records picks_db
              {[ "servers" :=
                 VArr [
                   VObj (<["id" := VNum (Int 7)]> (<["name" := jstr "db"]>
                         {["networks" :=
                             VObj {["v4" := VArr [VObj {["ip_address" := jstr "10.0.0.2"]}]]}]}));
                   VObj (<["id" := VNum (Int 8)]> {["name" := jstr "noip"]}) ] ]}
              [VObj (<["id" := VNum (Int 7)]> (<["name" := jstr "db"]>
                     {["networks" :=
                         VObj {["v4" := VArr [VObj {["ip_address" := jstr "10.0.0.2"]}]]}]}));
               VObj (<["id" := VNum (Int 8)]> {["name" := jstr "noip"]})])
    as (servers & Hrun & _ & Hlen).
  - reflexivity.
  - reflexivity.
  - intros Hin. repeat (apply elem_of_cons in Hin as [Hin|Hin]; [done|]).
    by apply elem_of_nil in Hin.
  - exists servers. split; [exact Hrun|]. rewrite Hlen. reflexivity.
Defined.

(** ** The picker *)

Lemma server_choice_run `{Platform} s w :
  server_choice s w
  = (match entry s with Some c => Ret c | None => Throw TypeError end, w, []).
Proof.
  unfold server_choice, entry.
  destruct (server_tags s) as [[]|]; reflexivity.
Qed.

Lemma choices_of_run `{Platform} servers w :
  choices_of servers w
  = (match mapM entry servers with
     | Some cs => Ret cs
     | None => Throw TypeError
     end, w, []).
Proof.
  induction servers as [|s servers IH]; [done|].
  cbn [choices_of]. rewrite launcher_bind_run, server_choice_run. cbn [mapM].
  destruct (entry s) as [c|]; [|done]. cbn.
  rewrite launcher_bind_run, IH. by destruct (mapM entry servers).
Qed.

Lemma promptForServer_run `{Platform} servers w :
  promptForServer servers w
  = match mapM entry servers with
    | Some cs => autocomplete (cs ++ [cancel_choice]) w
    | None => (Throw TypeError, w, [])
    end.
Proof.
  unfold promptForServer. rewrite launcher_bind_run, choices_of_run.
  destruct (mapM entry servers) as [cs|]; [|done].
  by destruct (autocomplete _ _) as [[r w'] t].
Qed.

Lemma entry_value `{Platform} s c : entry s = Some c → choice_value c = Some s.
Proof.
  unfold entry. destruct (server_tags s) as [[]|]; intros [= <-]; done.
Qed.

Lemma entry_None `{Platform} s : entry s = None ↔ bad_tags s.
Proof.
  unfold entry, bad_tags. destruct (server_tags s) as [[]|]; done.
Qed.

Lemma starts_with_spec needle hay :
  starts_with needle hay = true ↔ ∃ post, hay = needle ++ post.
Proof.
  revert hay. induction needle as [|c needle IH]; intros hay.
  - split; [by exists hay|done].
  - destruct hay as [|d hay]; simpl.
    + split; [done|]. by intros (post & ?).
    + rewrite andb_true_iff, N.eqb_eq, IH. split.
      * intros (-> & post & ->). by exists post.
      * intros (post & [= -> ->]). split; [done|]. by exists post.
Qed.

Lemma includes_spec hay needle :
  includes hay needle = true ↔ ∃ pre post, hay = pre ++ needle ++ post.
Proof.
  induction hay as [|d hay IH].
  - simpl. rewrite orb_false_r, starts_with_spec. split.
    + intros (post & Hpost). by exists [], post.
    + intros (pre & post & Heq). destruct pre; [|done]. by exists post.
  - cbn [includes]. rewrite orb_true_iff, starts_with_spec, IH. split.
    + intros [(post & ->)|(pre & post & ->)].
      * by exists [], post.
      * by exists (d :: pre), post.
    + intros ([|x pre] & post & Heq).
      * left. by exists post.
      * right. injection Heq as -> ->. by exists pre, post.
Qed.

Lemma search_source_member `{Platform} choices input c :
  c ∈ source choices input → c ∈ choices.
Proof.
  unfold source. rewrite !list_elem_of_In, List.filter_In. by intros [? _].
Qed.

(** X18: what the search does.  An entry is listed for a text exactly
    when it is an entry of the picker and the text is empty or, put in
    lower case, occurs in the entry's search text; the entries listed
    keep their order; and for the empty text all of them are listed. *)
Theorem search_lists_the_matches `{Platform} choices input :
  (∀ c, c ∈ source choices input
        ↔ c ∈ choices
          ∧ (input = []
             ∨ ∃ pre post, searchValue c = pre ++ toLowerCase input ++ post))
  ∧ sublist (source choices input) choices
  ∧ source choices [] = choices.
Proof.
  split_and!.
  - intros c. unfold source. rewrite !list_elem_of_In, List.filter_In.
    destruct input as [|x input].
    + split; [intros [? _]|intros [? _]]; auto.
    + rewrite includes_spec. split.
      * intros [? ?]. auto.
      * intros [? [?|?]]; [done|auto].
  - unfold source. induction choices as [|c choices IH]; [done|].
    cbn [List.filter]. destruct (match input with [] => true | _ => _ end).
    + by apply sublist_skip.
    + by apply sublist_cons.
  - unfold source. induction choices as [|c choices IH]; [done|].
    cbn [List.filter]. by rewrite IH.
Qed.

(** X19: whatever the operator types and picks, what the picker returns
    is [null] or one of the servers it was given; it shows one entry per
    server, in their order, then Cancel, and changes nothing. *)
Theorem picked_server_was_offered `{Platform} servers w selected :
  outcome_of (promptForServer servers w) = Ret selected →
  (∀ s, selected = Some s → s ∈ servers)
  ∧ machine_of (promptForServer servers w) = w
  ∧ ∃ cs, activities (promptForServer servers w) = [Offer (cs ++ [cancel_choice])]
          ∧ Forall2 (λ s c, choice_value c = Some s) servers cs.
Proof.
  rewrite promptForServer_run.
  destruct (mapM entry servers) as [cs|] eqn:Hcs; [|done].
  apply mapM_Some in Hcs.
  assert (Forall2 (λ s c, choice_value c = Some s) servers cs) as Hvalues.
  { eapply Forall2_impl; [exact Hcs|]. intros s c. apply entry_value. }
  unfold autocomplete.
  destruct (picker w) as [[input position]|]; [|done].
  destruct (source (cs ++ [cancel_choice]) input !! position) as [c|] eqn:Hc;
    [|done].
  look. intros [= <-]. split_and!; [|done|by exists cs].
  intros s Hs.
  apply list_elem_of_lookup_2 in Hc.
  pose proof (search_source_member (cs ++ [cancel_choice]) input c Hc) as Hin.
  apply elem_of_app in Hin as [Hin|Hin].
  - apply list_elem_of_lookup in Hin as [i Hi].
    destruct (Forall2_lookup_r _ _ _ _ _ Hvalues Hi) as (s' & Hs' & Hval).
    rewrite Hval in Hs. injection Hs as ->.
    by apply list_elem_of_lookup_2 in Hs'.
  - apply list_elem_of_singleton in Hin as ->. done.
Qed.

Lemma picked_server_was_offered_witness :
  Server BinaryLane None (jstr "db") (Some (jstr "10.0.0.2")) None
  ∈ [Server Vultr None (jstr "Web") (Some (jstr "10.0.0.1")) (Some (VArr []));
     Server BinaryLane None (jstr "db") (Some (jstr "10.0.0.2")) None].
Proof.
  destruct (picked_server_was_offered
              [Server Vultr None (jstr "Web") (Some (jstr "10.0.0.1")) (Some (VArr []));
               Server BinaryLane None (jstr "db") (Some (jstr "10.0.0.2")) None]
              picks_db
              (Some (Server BinaryLane None (jstr "db") (Some (jstr "10.0.0.2")) None)))
    as (Hin & _).
  - reflexivity.
  - exact (Hin _ eq_refl).
Defined.

(** X20: a server whose tags are there and are no array makes the picker
    throw a [TypeError] before anything is shown, whatever the other
    servers are. *)
Theorem tags_that_are_no_list_throw `{Platform} servers w s :
  s ∈ servers →
  bad_tags s →
  promptForServer servers w = (Throw TypeError, w, []).
Proof.
  intros Hin Hbad. rewrite promptForServer_run.
  assert (mapM entry servers = None) as ->; [|done].
  apply eq_None_not_Some. intros [cs Hcs]. apply mapM_Some in Hcs.
  apply list_elem_of_lookup in Hin as [i Hi].
  destruct (Forall2_lookup_l _ _ _ _ _ Hcs Hi) as (c & _ & Hc).
  apply entry_None in Hbad. congruence.
Qed.

Lemma tags_that_are_no_list_throw_witness :
  promptForServer
    [Server Vultr None (jstr "Web") (Some (jstr "10.0.0.1")) (Some (jstr "prod"))]
    picks_db
  = (Throw TypeError, picks_db, []).
Proof.
  apply (tags_that_are_no_list_throw
           [Server Vultr None (jstr "Web") (Some (jstr "10.0.0.1")) (Some (jstr "prod"))]
           picks_db
           (Server Vultr None (jstr "Web") (Some (jstr "10.0.0.1")) (Some (jstr "prod")))).
  - apply elem_of_cons; by left.
  - exact I.
Defined.

(** X21: with servers whose tags are lists or missing, Cancel is always
    within reach: for the empty text every server is listed and Cancel
    comes last, and picking it returns [null]. *)
Theorem cancel_is_the_last_entry `{Platform} servers w :
  Forall (λ s, ¬ bad_tags s) servers →
  picker w = Some ([], length servers) →
  outcome_of (promptForServer servers w) = Ret None
  ∧ ∃ cs, offers (activities (promptForServer servers w))
          = [cs ++ [cancel_choice]]
          ∧ length cs = length servers.
Proof.
  intros Hgood Hpick. rewrite promptForServer_run.
  assert (is_Some (mapM entry servers)) as [cs Hcs].
  { apply mapM_is_Some. eapply Forall_impl; [exact Hgood|].
    intros s Hs. destruct (entry s) eqn:He; [by eexists|].
    by apply entry_None in He. }
  rewrite Hcs. apply mapM_Some in Hcs.
  pose proof (Forall2_length _ _ _ Hcs) as Hlen.
  unfold autocomplete. rewrite Hpick.
  assert (source (cs ++ [cancel_choice]) [] = cs ++ [cancel_choice]) as ->.
  { unfold source. induction (cs ++ [cancel_choice]) as [|c l IH]; [done|].
    cbn [List.filter]. by rewrite IH. }
  rewrite Hlen.
  assert ((cs ++ [cancel_choice]) !! length cs = Some cancel_choice) as ->.
  { by rewrite lookup_app_r, Nat.sub_diag. }
  look. split; [done|]. by exists cs.
Qed.

Lemma cancel_is_the_last_entry_witness :
  outcome_of
    (promptForServer
       [Server BinaryLane None (jstr "db") (Some (jstr "10.0.0.2")) None]
       (Machine (world no_store [] []) [] Refused Refused (Some ([], 1%nat))))
  = Ret None.
Proof.
  destruct (cancel_is_the_last_entry
              [Server BinaryLane None (jstr "db") (Some (jstr "10.0.0.2")) None]
              (Machine (world no_store [] []) [] Refused Refused (Some ([], 1%nat))))
    as (Hr & _).
  - repeat constructor. intros [].
  - reflexivity.
  - exact Hr.
Defined.

(** ** [main] *)

Lemma setupSSHAgent_keeps w :
  (∀ x, outcome_of (setupSSHAgent w) ≠ Throw x)
  ∧ terminal (machine_of (setupSSHAgent w)) = terminal w
  ∧ vultr_api (machine_of (setupSSHAgent w)) = vultr_api w
  ∧ binarylane_api (machine_of (setupSSHAgent w)) = binarylane_api w
  ∧ picker (machine_of (setupSSHAgent w)) = picker w
  ∧ offers (activities (setupSSHAgent w)) = []
  ∧ session_events (activities (setupSSHAgent w)) = []
  ∧ (∀ n, Say n ∈ activities (setupSSHAgent w) →
          n = StartingSshAgent ∨ n = AddingSshKey).
Proof.
  rewrite setupSSHAgent_run. cbn zeta.
  destruct w as [e cmds v b p].
  cbn [commands terminal vultr_api binarylane_api picker].
  destruct cmds as [|[] [|[] [|[] [|[] rest]]]]; look;
    split_and!; try done; intros n Hin;
    repeat (apply elem_of_cons in Hin as [Hin|Hin];
            [first [done | injection Hin as ->; auto]|]);
    by apply elem_of_nil in Hin.
Qed.

Lemma promptForServer_keeps `{Platform} servers w :
  machine_of (promptForServer servers w) = w
  ∧ session_events (activities (promptForServer servers w)) = []
  ∧ executed (activities (promptForServer servers w)) = []
  ∧ (∀ n, Say n ∉ activities (promptForServer servers w))
  ∧ (∀ cs, Offer cs ∈ activities (promptForServer servers w) →
       ∃ entries, cs = entries ++ [cancel_choice]
                  ∧ Forall2 (λ s c, choice_value c = Some s) servers entries).
Proof.
  rewrite promptForServer_run.
  destruct (mapM entry servers) as [cs|] eqn:Hcs.
  2: { look. split_and!; try done; intros ? Hin; by apply elem_of_nil in Hin. }
  apply mapM_Some in Hcs.
  assert (Forall2 (λ s c, choice_value c = Some s) servers cs) as Hvalues.
  { eapply Forall2_impl; [exact Hcs|]. intros s c. apply entry_value. }
  unfold autocomplete.
  destruct (picker w) as [[input position]|];
    [destruct (source (cs ++ [cancel_choice]) input !! position)|];
    look; split_and!; try done.
  all: try (intros n Hin; apply list_elem_of_singleton in Hin; done).
  all: intros cs' Hin; apply list_elem_of_singleton in Hin;
    injection Hin as ->; by exists cs.
Qed.

(** What [main] does once the set-up has returned and both providers
    have answered or failed. *)
Lemma main_run `{Platform} w vs bs :
  outcome_of (setupSSHAgent w) = Ret () →
  outcome_of (getVultrServers w) = Ret vs →
  outcome_of (getBinarylaneServers w) = Ret bs →
  let w0 := machine_of (setupSSHAgent w) in
  let before :=
    activities (setupSSHAgent w) ++ activities (getVultrServers w)
      ++ activities (getBinarylaneServers w) in
  main w =
    match with_ip (vs ++ bs) with
    | [] => (Ret (), w0, before ++ [Say NoServersFound])
    | s0 :: more =>
        let p := promptForServer (s0 :: more) w0 in
        match outcome_of p with
        | Ret None =>
            (Ret (), w0, before ++ activities p ++ [Say OperationCancelled])
        | Ret (Some s) =>
            let run :=
              sshIntoServer (host_key (ToString (server_ip s))) "root"
                (terminal w) in
            (result run,
             Machine (final run) (commands w0) (vultr_api w)
               (binarylane_api w) (picker w),
             before ++ activities p ++ (Session <$> trace run))
        | Throw x => (Throw x, w0, before ++ activities p)
        | Pending => (Pending, w0, before ++ activities p)
        end
    end.
Proof.
  intros Hs Hv Hb w0 before.
  pose proof (setupSSHAgent_keeps w) as (_ & Ht & Hva & Hba & Hp & _).
  fold w0 in Ht, Hva, Hba, Hp.
  unfold main. rewrite launcher_bind_run.
  destruct (setupSSHAgent w) as [[r0 w0'] t0] eqn:Hsetup.
  unfold outcome_of, machine_of, activities in *; cbn [fst snd] in *.
  subst r0 w0 before. cbn [fst snd].
  rewrite launcher_bind_run, getVultrServers_run, Hva.
  rewrite getVultrServers_run in Hv. cbn [fst snd] in Hv. rewrite Hv.
  rewrite launcher_bind_run, getBinarylaneServers_run, Hba.
  rewrite getBinarylaneServers_run in Hb. cbn [fst snd] in Hb. rewrite Hb.
  rewrite !getVultrServers_run, !getBinarylaneServers_run. cbn [fst snd].
  set (tv := (inventory vultr_record "instances" Vultr (vultr_api w)).2).
  set (tb := (inventory binarylane_record "servers" BinaryLane
                (binarylane_api w)).2).
  destruct (with_ip (vs ++ bs)) as [|s0 more].
  { unfold say, act. by rewrite <- !app_assoc. }
  rewrite launcher_bind_run.
  pose proof (promptForServer_keeps (s0 :: more) w0') as (Hkeep & _).
  destruct (promptForServer (s0 :: more) w0') as [[rp wp] tp].
  unfold machine_of in Hkeep; cbn [fst snd] in *. subst wp.
  destruct rp as [[s|]|x|]; cbn [fst snd].
  - unfold on_terminal. rewrite Ht, Hva, Hba, Hp.
    destruct (sshIntoServer _ _ _) as [[r e'] t]. observe.
    by rewrite <- !app_assoc.
  - unfold say, act. by rewrite <- !app_assoc.
  - by rewrite <- !app_assoc.
  - by rewrite <- !app_assoc.
Qed.

Lemma session_events_app t u :
  session_events (t ++ u) = session_events t ++ session_events u.
Proof. apply omap_app. Qed.

Lemma offers_app t u : offers (t ++ u) = offers t ++ offers u.
Proof. apply omap_app. Qed.

Lemma session_events_of_session (t : list event) :
  session_events (Session <$> t) = t ∧ offers (Session <$> t) = []
  ∧ ∀ n, Say n ∉ (Session <$> t).
Proof.
  induction t as [|ev t (IH1 & IH2 & IH3)]; [split_and!; try done|].
  - intros n Hin. by apply elem_of_nil in Hin.
  - cbn. split_and!; [by f_equal|done|].
    intros n [Hin|Hin]%elem_of_cons; [done|]. by apply (IH3 n).
Qed.

Lemma fetch_keeps `{Platform} w :
  machine_of (getVultrServers w) = w
  ∧ machine_of (getBinarylaneServers w) = w
  ∧ (∀ x, outcome_of (getVultrServers w) ≠ Throw x)
  ∧ (∀ x, outcome_of (getBinarylaneServers w) ≠ Throw x)
  ∧ offers (activities (getVultrServers w)) = []
  ∧ offers (activities (getBinarylaneServers w)) = []
  ∧ session_events (activities (getVultrServers w)) = []
  ∧ session_events (activities (getBinarylaneServers w)) = []
  ∧ (∀ n, Say n ∉ activities (getVultrServers w))
  ∧ (∀ n, Say n ∉ activities (getBinarylaneServers w)).
Proof.
  rewrite getVultrServers_run, getBinarylaneServers_run. look.
  pose proof (inventory_read vultr_record "instances" Vultr (vultr_api w))
    as (? & ? & ? & ? & ?).
  pose proof (inventory_read binarylane_record "servers" BinaryLane
                (binarylane_api w)) as (? & ? & ? & ? & ?).
  by split_and!.
Qed.

(** While the set-up or a fetch is waiting, [main] waits with it. *)
Lemma main_waits `{Platform} w :
  outcome_of (setupSSHAgent w) ≠ Ret ()
  ∨ (∀ vs, outcome_of (getVultrServers w) ≠ Ret vs)
  ∨ (∀ bs, outcome_of (getBinarylaneServers w) ≠ Ret bs) →
  outcome_of (main w) = Pending
  ∧ offers (activities (main w)) = []
  ∧ session_events (activities (main w)) = []
  ∧ (∀ n, Say n ∈ activities (main w) →
          n = StartingSshAgent ∨ n = AddingSshKey).
Proof.
  intros Hwait.
  pose proof (setupSSHAgent_keeps w)
    as (Hno & Ht & Hva & Hba & Hp & Ho & Hs & Hsay).
  unfold main. rewrite launcher_bind_run.
  destruct (setupSSHAgent w) as [[r0 w0] t0] eqn:Hsetup.
  unfold outcome_of, machine_of, activities in *; cbn [fst snd] in *.
  destruct r0 as [[]|x|]; [|by destruct (Hno x)|by split_and!].
  pose proof (fetch_keeps w0)
    as (_ & _ & Hnv & Hnb & Hov & Hob & Hsv & Hsb & Hyv & Hyb).
  pose proof (fetch_keeps w) as (_ & _ & _ & _ & _).
  rewrite launcher_bind_run.
  assert (getVultrServers w0
          = ((getVultrServers w).1.1, w0, (getVultrServers w).2)) as Hsamev.
  { by rewrite !getVultrServers_run, Hva. }
  assert (getBinarylaneServers w0
          = ((getBinarylaneServers w).1.1, w0, (getBinarylaneServers w).2))
    as Hsameb.
  { by rewrite !getBinarylaneServers_run, Hba. }
  unfold outcome_of, activities in *.
  rewrite Hsamev in *. cbn [fst snd] in *.
  destruct (getVultrServers w) as [[rv wv] tv]. cbn [fst snd] in *.
  destruct rv as [vs|x|]; [|by destruct (Hnv x)|].
  2: { cbn [fst snd].
       rewrite offers_app, session_events_app, Ho, Hs, Hov, Hsv.
       split_and!; try done. intros n [Hin|Hin]%elem_of_app; [auto|].
       by destruct (Hyv n). }
  rewrite launcher_bind_run, Hsameb in *. cbn [fst snd] in *.
  destruct (getBinarylaneServers w) as [[rb wb] tb]. cbn [fst snd] in *.
  destruct rb as [bs|x|]; [|by destruct (Hnb x)|].
  2: { cbn [fst snd].
       rewrite !offers_app, !session_events_app, Ho, Hs, Hov, Hsv, Hob, Hsb.
       split_and!; try done.
       intros n [Hin|[Hin|Hin]%elem_of_app]%elem_of_app; [auto|..].
       - by destruct (Hyv n).
       - by destruct (Hyb n). }
  exfalso. destruct Hwait as [Hw|[Hw|Hw]]; [done|by apply (Hw vs)|by apply (Hw bs)].
Qed.

(** X22: when no server with an address comes back, [main] says so and
    stops: the picker is not shown and no session is started. *)
Theorem main_without_servers `{Platform} w vs bs :
  outcome_of (setupSSHAgent w) = Ret () →
  outcome_of (getVultrServers w) = Ret vs →
  outcome_of (getBinarylaneServers w) = Ret bs →
  with_ip (vs ++ bs) = [] →
  outcome_of (main w) = Ret ()
  ∧ last (activities (main w)) = Some (Say NoServersFound)
  ∧ offers (activities (main w)) = []
  ∧ session_events (activities (main w)) = []
  ∧ terminal (machine_of (main w)) = terminal w.
Proof.
  intros Hs Hv Hb Hnone.
  rewrite (main_run w vs bs Hs Hv Hb). cbn zeta. rewrite Hnone.
  pose proof (setupSSHAgent_keeps w) as (_ & Ht & _ & _ & _ & Ho & Hse & _).
  pose proof (fetch_keeps w) as (_ & _ & _ & _ & Hov & Hob & Hsv & Hsb & _).
  unfold outcome_of, machine_of, activities in *; cbn [fst snd] in *.
  rewrite !offers_app, !session_events_app, Ho, Hse, Hov, Hob, Hsv, Hsb.
  split_and!; try done. by rewrite last_snoc.
Qed.

Lemma main_without_servers_witness :
  outcome_of (main nothing_works) = Ret ()
  ∧ last (activities (main nothing_works)) = Some (Say NoServersFound)
  ∧ offers (activities (main nothing_works)) = [].
Proof.
  destruct (main_without_servers nothing_works [] []) as (Hr & Hl & Ho & _).
  - reflexivity.
  - reflexivity.
  - reflexivity.
  - reflexivity.
  - split; [exact Hr|split; [exact Hl|exact Ho]].
Defined.

(** X23: every entry [main] offers, apart from Cancel, is a server with a
    truthy address that one of the two fetches returned; Cancel is
    always the last entry. *)
Theorem main_offers_servers_with_an_address `{Platform} w cs :
  Offer cs ∈ activities (main w) →
  ∃ entries vs bs,
    cs = entries ++ [cancel_choice]
    ∧ outcome_of (getVultrServers w) = Ret vs
    ∧ outcome_of (getBinarylaneServers w) = Ret bs
    ∧ Forall2 (λ s c, choice_value c = Some s) (with_ip (vs ++ bs)) entries
    ∧ (∀ c s, c ∈ entries → choice_value c = Some s →
         truthy_opt (server_ip s) = true ∧ s ∈ vs ++ bs).
Proof.
  intros Hoffer.
  destruct (outcome_of (setupSSHAgent w)) as [[]|x|] eqn:Hs.
  2,3: destruct (main_waits w) as (_ & Hno & _);
       [left; by rewrite Hs|];
       assert (cs ∈ offers (activities (main w))) as Hin
         by (by apply (list_elem_of_omap
                         (λ a, match a with Offer cs => Some cs | _ => None end)
                         _ cs); exists (Offer cs));
       rewrite Hno in Hin; by apply elem_of_nil in Hin.
  destruct (outcome_of (getVultrServers w)) as [vs|x|] eqn:Hv.
  2,3: destruct (main_waits w) as (_ & Hno & _);
       [right; left; intros vs; by rewrite Hv|];
       assert (cs ∈ offers (activities (main w))) as Hin
         by (by apply (list_elem_of_omap
                         (λ a, match a with Offer cs => Some cs | _ => None end)
                         _ cs); exists (Offer cs));
       rewrite Hno in Hin; by apply elem_of_nil in Hin.
  destruct (outcome_of (getBinarylaneServers w)) as [bs|x|] eqn:Hb.
  2,3: destruct (main_waits w) as (_ & Hno & _);
       [right; right; intros bs; by rewrite Hb|];
       assert (cs ∈ offers (activities (main w))) as Hin
         by (by apply (list_elem_of_omap
                         (λ a, match a with Offer cs => Some cs | _ => None end)
                         _ cs); exists (Offer cs));
       rewrite Hno in Hin; by apply elem_of_nil in Hin.
  rewrite (main_run w vs bs Hs Hv Hb) in Hoffer. cbn zeta in Hoffer.
  pose proof (setupSSHAgent_keeps w) as (_ & _ & _ & _ & _ & Ho & _).
  pose proof (fetch_keeps w) as (_ & _ & _ & _ & Hov & Hob & _).
  assert (∀ t, offers t = [] → Offer cs ∉ t) as Hnot.
  { intros t Ht Hin.
    assert (cs ∈ offers t) as Hcs
      by (by apply (list_elem_of_omap
                      (λ a, match a with Offer cs => Some cs | _ => None end)
                      _ cs); exists (Offer cs)).
    rewrite Ht in Hcs. by apply elem_of_nil in Hcs. }
  destruct (with_ip (vs ++ bs)) as [|s0 more] eqn:Hall.
  { exfalso. unfold activities in Hoffer; cbn [snd] in Hoffer.
    rewrite !elem_of_app in Hoffer.
    destruct Hoffer as [[Hin|[Hin|Hin]]|Hin];
      [by apply (Hnot _ Ho)|by apply (Hnot _ Hov)|by apply (Hnot _ Hob)|].
    by apply list_elem_of_singleton in Hin. }
  set (w0 := machine_of (setupSSHAgent w)) in *.
  pose proof (promptForServer_keeps (s0 :: more) w0) as (_ & _ & _ & _ & Hshown).
  assert (Offer cs ∈ activities (promptForServer (s0 :: more) w0)) as Hin.
  { destruct (outcome_of (promptForServer (s0 :: more) w0)) as [[s|]|x|];
      unfold activities at 1 in Hoffer; cbn [snd] in Hoffer;
      rewrite !elem_of_app in Hoffer;
      destruct Hoffer as [[Hin|[Hin|Hin]]|Hin];
      try (by destruct (Hnot _ Ho Hin)); try (by destruct (Hnot _ Hov Hin));
      try (by destruct (Hnot _ Hob Hin)); try done.
    - destruct Hin as [Hin|Hin]; [done|].
      destruct (session_events_of_session
                  (trace (sshIntoServer (host_key (ToString (server_ip s)))
                            "root" (terminal w)))) as (_ & Hoff & _).
      by destruct (Hnot _ Hoff Hin).
    - destruct Hin as [Hin|Hin]; [done|].
      by apply list_elem_of_singleton in Hin. }
  destruct (Hshown cs Hin) as (entries & -> & Hvalues).
  exists entries, vs, bs. split_and!; [done..|by rewrite Hall|].
  intros c s Hc Hval.
  apply list_elem_of_lookup in Hc as [i Hi].
  destruct (Forall2_lookup_r _ _ _ _ _ Hvalues Hi) as (s' & Hs' & Hval').
  rewrite Hval' in Hval. injection Hval as ->.
  apply list_elem_of_lookup_2 in Hs'. rewrite <- Hall in Hs'.
  unfold with_ip in Hs'. apply list_elem_of_In, List.filter_In in Hs' as [Hin' Hip].
  split; [done|]. by apply list_elem_of_In.
Qed.

Lemma main_offers_servers_with_an_address_witness :
  ∃ entries vs bs,
    hd [] (offers (activities (main picks_db))) = entries ++ [cancel_choice]
    ∧ outcome_of (getVultrServers picks_db) = Ret vs
    ∧ outcome_of (getBinarylaneServers picks_db) = Ret bs
    ∧ Forall2 (λ s c, choice_value c = Some s) (with_ip (vs ++ bs)) entries
    ∧ (∀ c s, c ∈ entries → choice_value c = Some s →
         truthy_opt (server_ip s) = true ∧ s ∈ vs ++ bs).
Proof.
  apply (main_offers_servers_with_an_address picks_db
           (hd [] (offers (activities (main picks_db))))).
  apply list_elem_of_lookup. exists 4%nat. by vm_compute.
Defined.

(** The lines [main] can print before the picker is through. *)
Lemma early_lines `{Platform} w servers n :
  Say n ∈ activities (setupSSHAgent w) ++ activities (getVultrServers w)
            ++ activities (getBinarylaneServers w)
            ++ activities (promptForServer servers (machine_of (setupSSHAgent w))) →
  n = StartingSshAgent ∨ n = AddingSshKey.
Proof.
  pose proof (setupSSHAgent_keeps w) as (_ & _ & _ & _ & _ & _ & _ & Hsay).
  pose proof (fetch_keeps w) as (_ & _ & _ & _ & _ & _ & _ & _ & Hyv & Hyb).
  pose proof (promptForServer_keeps servers (machine_of (setupSSHAgent w)))
    as (_ & _ & _ & Hyp & _).
  rewrite !elem_of_app. intros [Hin|[Hin|[Hin|Hin]]]; [auto|..].
  - by destruct (Hyv n).
  - by destruct (Hyb n).
  - by destruct (Hyp n).
Qed.

(** X24: when [main] has said that no server was found, or that the
    operation was cancelled, it has returned without starting a session:
    nothing was spawned, and the terminal and the store are as they
    were. *)
Theorem no_session_without_a_selection `{Platform} w :
  Say NoServersFound ∈ activities (main w)
  ∨ Say OperationCancelled ∈ activities (main w) →
  outcome_of (main w) = Ret ()
  ∧ session_events (activities (main w)) = []
  ∧ terminal (machine_of (main w)) = terminal w.
Proof.
  intros Hsaid.
  assert (∀ n, n = NoServersFound ∨ n = OperationCancelled →
               ¬ (n = StartingSshAgent ∨ n = AddingSshKey)) as Hother.
  { intros n [-> | ->] [?|?]; done. }
  assert (∃ n, (n = NoServersFound ∨ n = OperationCancelled)
               ∧ Say n ∈ activities (main w)) as (n & Hn & Hin).
  { destruct Hsaid; eauto. }
  clear Hsaid.
  destruct (outcome_of (setupSSHAgent w)) as [[]|x|] eqn:Hs.
  2,3: destruct (main_waits w) as (_ & _ & _ & Hsay); [left; by rewrite Hs|];
       by destruct (Hother n Hn (Hsay n Hin)).
  destruct (outcome_of (getVultrServers w)) as [vs|x|] eqn:Hv.
  2,3: destruct (main_waits w) as (_ & _ & _ & Hsay);
       [right; left; intros vs; by rewrite Hv|];
       by destruct (Hother n Hn (Hsay n Hin)).
  destruct (outcome_of (getBinarylaneServers w)) as [bs|x|] eqn:Hb.
  2,3: destruct (main_waits w) as (_ & _ & _ & Hsay);
       [right; right; intros bs; by rewrite Hb|];
       by destruct (Hother n Hn (Hsay n Hin)).
  pose proof (main_run w vs bs Hs Hv Hb) as Hrun. cbn zeta in Hrun.
  pose proof (setupSSHAgent_keeps w) as (_ & Ht & _ & _ & _ & _ & Hse & _).
  pose proof (fetch_keeps w) as (_ & _ & _ & _ & _ & _ & Hsv & Hsb & _).
  destruct (with_ip (vs ++ bs)) as [|s0 more].
  { rewrite Hrun. look. rewrite !session_events_app.
    unfold activities in Hse, Hsv, Hsb. rewrite Hse, Hsv, Hsb.
    by split_and!. }
  pose proof (promptForServer_keeps (s0 :: more) (machine_of (setupSSHAgent w)))
    as (_ & Hsp & _).
  pose proof (early_lines w (s0 :: more) n) as Hearly.
  destruct (outcome_of (promptForServer (s0 :: more)
                          (machine_of (setupSSHAgent w)))) as [[s|]|x|].
  - exfalso. rewrite Hrun in Hin. unfold activities at 1 in Hin.
    cbn [snd] in Hin. rewrite !app_assoc in Hin.
    apply elem_of_app in Hin as [Hin|Hin].
    + rewrite <- !app_assoc in Hin. by destruct (Hother n Hn (Hearly Hin)).
    + destruct (session_events_of_session
                  (trace (sshIntoServer (host_key (ToString (server_ip s)))
                            "root" (terminal w)))) as (_ & _ & Hnone).
      by destruct (Hnone n).
  - rewrite Hrun. look. rewrite !session_events_app.
    unfold activities, machine_of in Hse, Hsv, Hsb, Hsp.
    rewrite Hse, Hsv, Hsb, Hsp.
    by split_and!.
  - exfalso. rewrite Hrun in Hin. unfold activities at 1 in Hin.
    cbn [snd] in Hin. rewrite <- !app_assoc in Hin.
    by destruct (Hother n Hn (Hearly Hin)).
  - exfalso. rewrite Hrun in Hin. unfold activities at 1 in Hin.
    cbn [snd] in Hin. rewrite <- !app_assoc in Hin.
    by destruct (Hother n Hn (Hearly Hin)).
Qed.

Lemma no_session_without_a_selection_witness :
  outcome_of (main picks_cancel) = Ret ()
  ∧ session_events (activities (main picks_cancel)) = []
  ∧ terminal (machine_of (main picks_cancel)) = terminal picks_cancel.
Proof.
  apply (no_session_without_a_selection picks_cancel).
  right. apply list_elem_of_lookup. exists 5%nat. by vm_compute.
Defined.

(** X25: when the operator picks a server, [main] runs the session
    workflow for it and nothing else: the host is the text of the
    server's address, which is truthy, the user is root, and what the
    session does, how it ends and the state it leaves are those of
    [sshIntoServer] on the terminal [main] was started with. *)
Theorem main_dials_the_selected_server `{Platform} w vs bs s :
  outcome_of (setupSSHAgent w) = Ret () →
  outcome_of (getVultrServers w) = Ret vs →
  outcome_of (getBinarylaneServers w) = Ret bs →
  outcome_of (promptForServer (with_ip (vs ++ bs)) (machine_of (setupSSHAgent w)))
    = Ret (Some s) →
  let run :=
    sshIntoServer (host_key (ToString (server_ip s))) "root" (terminal w) in
  s ∈ vs ++ bs
  ∧ truthy_opt (server_ip s) = true
  ∧ outcome_of (main w) = result run
  ∧ session_events (activities (main w)) = trace run
  ∧ terminal (machine_of (main w)) = final run.
Proof.
  intros Hs Hv Hb Hpick run.
  set (w0 := machine_of (setupSSHAgent w)) in *.
  assert (s ∈ with_ip (vs ++ bs)) as Hin.
  { revert Hpick. rewrite promptForServer_run.
    destruct (mapM entry (with_ip (vs ++ bs))) as [cs|] eqn:Hcs; [|done].
    apply mapM_Some in Hcs. unfold autocomplete.
    destruct (picker w0) as [[input position]|]; [|done].
    destruct (source (cs ++ [cancel_choice]) input !! position) as [c|] eqn:Hc;
      [|done].
    look. intros [= Hval].
    apply list_elem_of_lookup_2, search_source_member in Hc.
    apply elem_of_app in Hc as [Hc|Hc].
    - apply list_elem_of_lookup in Hc as [i Hi].
      destruct (Forall2_lookup_r _ _ _ _ _ Hcs Hi) as (s' & Hs' & He).
      apply entry_value in He. rewrite He in Hval. injection Hval as ->.
      by apply list_elem_of_lookup_2 in Hs'.
    - apply list_elem_of_singleton in Hc as ->. done. }
  assert (s ∈ vs ++ bs ∧ truthy_opt (server_ip s) = true) as [Hmem Hip].
  { unfold with_ip in Hin.
    apply list_elem_of_In, List.filter_In in Hin as [Hin Hip].
    split; [by apply list_elem_of_In|done]. }
  pose proof (main_run w vs bs Hs Hv Hb) as Hrun. cbn zeta in Hrun.
  fold w0 in Hrun.
  destruct (with_ip (vs ++ bs)) as [|s0 more]; [by apply elem_of_nil in Hin|].
  rewrite Hpick in Hrun. fold run in Hrun.
  pose proof (setupSSHAgent_keeps w) as (_ & _ & _ & _ & _ & _ & Hse & _).
  pose proof (fetch_keeps w) as (_ & _ & _ & _ & _ & _ & Hsv & Hsb & _).
  pose proof (promptForServer_keeps (s0 :: more) w0) as (_ & Hsp & _).
  destruct (session_events_of_session (trace run)) as (Hsess & _).
  rewrite Hrun. unfold outcome_of, machine_of. cbn [fst snd terminal].
  unfold activities at 1. cbn [snd].
  rewrite !session_events_app, Hse, Hsv, Hsb, Hsp, Hsess.
  by split_and!.
Qed.

Lemma main_dials_the_selected_server_witness :
  outcome_of (main picks_db) = Ret ()
  ∧ session_events (activities (main picks_db))
    = trace (sshIntoServer "10.0.0.2" "root" (world no_store [closes 0] [])).
Proof.
  destruct (main_dials_the_selected_server picks_db
              [Server Vultr (Some (jstr "a1")) (jstr "Web")
                 (Some (jstr "10.0.0.1")) (Some (VArr [jstr "prod"; jstr "eu"]));
               Server Vultr (Some (jstr "b2")) (jstr "Vultr-b2")
                 (Some (jstr "10.0.0.3")) (Some (VArr []))]
              [Server BinaryLane (Some (VNum (Int 7))) (jstr "db")
                 (Some (jstr "10.0.0.2")) None;
               Server BinaryLane (Some (VNum (Int 8))) (jstr "noip")
                 (Some VNull) None]
              (Server BinaryLane (Some (VNum (Int 7))) (jstr "db")
                 (Some (jstr "10.0.0.2")) None))
    as (_ & _ & Hr & Hsess & _).
  - reflexivity.
  - reflexivity.
  - reflexivity.
  - reflexivity.
  - split; [exact Hr|exact Hsess].
Defined.
